(** * bdd-vitest: the service helpers of [src/mock-ai.ts] (the [service]
    module: [startService], [startCluster], [stopProcess],
    [assertPerformance]) and the mock fixtures beside them.

    The TypeScript is embedded shallowly.  An awaited promise becomes a
    function of the world that returns how the promise settled together
    with the world it left; a JavaScript exception and a rejected promise
    are both the [Throw] completion, because [await] turns the second into
    the first.  Numbers that the code only compares and prints
    (milliseconds, megabytes, exit codes) are integers. *)

From Stdlib Require Import ZArith Lia Bool Ascii String List DecimalString.
From stdpp Require Import base option list strings gmap.

Local Open Scope Z_scope.
Local Open Scope string_scope.

(** ** JavaScript strings *)

Module Js.

(** [s.includes(sub)] *)
Fixpoint includes (s sub : string) : bool :=
  String.prefix sub s
  || match s with
     | EmptyString => false
     | String _ rest => includes rest sub
     end.

(** [s.slice(-n)] for a positive [n]: the last [n] characters, all of [s]
    when it is shorter. *)
Definition slice_last (n : nat) (s : string) : string :=
  String.substring (String.length s - n) n s.

(** [`${z}`] for an integral number. *)
Definition show (z : Z) : string := NilZero.string_of_int (Z.to_int z).

(** Truthiness of an optional string property: [undefined] and the empty
    string are falsy. *)
Definition truthy (o : option string) : bool :=
  match o with
  | Some (String _ _) => true
  | _ => false
  end.

End Js.

(** ** Completions *)

Definition Error := string.

Inductive Completion (A : Type) : Type :=
| Normal (a : A)
| Throw (e : Error).
Arguments Normal {A} a.
Arguments Throw {A} e.

(** An awaited [Promise<A>] in a world [W]. *)
Definition Promise (W A : Type) : Type := W -> Completion A * W.

Definition ret {W A} (a : A) : Promise W A := fun w => (Normal a, w).

Definition bind {W A B} (m : Promise W A) (k : A -> Promise W B)
  : Promise W B :=
  fun w => match m w with
           | (Normal a, w') => k a w'
           | (Throw e, w') => (Throw e, w')
           end.

(** [p.catch(h)] *)
Definition catch {W A} (m : Promise W A) (h : Error -> Promise W A)
  : Promise W A :=
  fun w => match m w with
           | (Normal a, w') => (Normal a, w')
           | (Throw e, w') => h e w'
           end.

(** [for (const x of xs) { await body(x) }] *)
Fixpoint for_of {W A} (xs : list A) (body : A -> Promise W unit)
  : Promise W unit :=
  match xs with
  | [] => ret tt
  | x :: rest => bind (body x) (fun _ => for_of rest body)
  end.

(** ** The service interfaces *)

Record ProcessStats := {
  stats_pid : Z;
  uptimeMs : Z;
  memoryMb : option Z;   (* number | null *)
}.

(** [RunningService]: an object of data and closures; the closures read and
    change the world. *)
Record RunningService (W : Type) := {
  name : string;
  pid : Z;
  stdout : W -> string;
  stderr : W -> string;
  startupMs : Z;
  isAlive : W -> bool;
  isHealthy : Promise W bool;
  stop : Promise W unit;
  stats : W -> ProcessStats;
}.
Arguments name {W} _.
Arguments pid {W} _.
Arguments stdout {W} _ _.
Arguments stderr {W} _ _.
Arguments startupMs {W} _.
Arguments isAlive {W} _ _.
Arguments isHealthy {W} _ _.
Arguments stop {W} _ _.
Arguments stats {W} _ _.

Record PerformanceRequirement := {
  maxStartupMs : option Z;
  maxMemoryMb : option Z;
  maxResponseMs : option Z;
}.

(** ** assertPerformance *)

Definition assertPerformance {W} (service : RunningService W)
    (requirements : PerformanceRequirement) (w : W) : Completion unit :=
  let memory_check : Completion unit :=
    match maxMemoryMb requirements with
    | Some limit =>
        let st := stats service w in
        match memoryMb st with
        | Some mb =>
            if (limit <? mb)%Z
            then Throw ("[" +:+ name service +:+ "] Memory too high: "
                        +:+ Js.show mb +:+ "MB > "
                        +:+ Js.show limit +:+ "MB")
            else Normal tt
        | None => Normal tt
        end
    | None => Normal tt
    end in
  match maxStartupMs requirements with
  | Some limit =>
      if (limit <? startupMs service)%Z
      then Throw ("[" +:+ name service +:+ "] Startup too slow: "
                  +:+ Js.show (startupMs service) +:+ "ms > "
                  +:+ Js.show limit +:+ "ms")
      else memory_check
  | None => memory_check
  end.

(** ** ServiceConfig *)

Record Ready := {
  signal : option string;
  url : option string;
  pollMs : option Z;
}.

Record Health := { health_url : string }.

Record Requires := {
  gpu : option bool;
  minRamMb : option Z;
  minVramMb : option Z;
}.

Record ServiceConfig := {
  cfg_name : string;
  command : string;
  args : list string;
  cwd : option string;
  env : option (list (string * string));
  ready : Ready;
  health : option Health;
  startTimeoutMs : option Z;   (* default: 15s *)
  stopTimeoutMs : option Z;    (* default: 5s *)
  requires : option Requires;
}.

(** ** Service cluster: ordered start, reverse stop *)

Record ServiceCluster (W : Type) := {
  services : list (RunningService W);
  stopAll : Promise W unit;
  get : string -> option (RunningService W);
  cluster_isHealthy : Promise W bool;
}.
Arguments services {W} _.
Arguments stopAll {W} _ _.
Arguments get {W} _ _.
Arguments cluster_isHealthy {W} _ _.

Section Cluster.
Context {W : Type}.
(** [startCluster] only ever calls [startService]; anything of that type
    will do here. *)
Variable startService : ServiceConfig -> Promise W (RunningService W).

(** [await s.stop().catch(() => {})] *)
Definition stop_quietly (s : RunningService W) : Promise W unit :=
  catch (stop s) (fun _ => ret tt).

(** The body of the [try]: the loop pushes onto [services], and a throw
    leaves the array as filled so far for the [catch] block. *)
Fixpoint start_each (configs : list ServiceConfig)
    (services : list (RunningService W)) (w : W)
  : Completion unit * list (RunningService W) * W :=
  match configs with
  | [] => (Normal tt, services, w)
  | config :: rest =>
      match startService config w with
      | (Normal service, w') => start_each rest (services ++ [service]) w'
      | (Throw error, w') => (Throw error, services, w')
      end
  end.

(** [Promise.all(services.map((s) => s.isHealthy()))]: every check is
    started, in order; the result rejects when one of them did. *)
Fixpoint all_healthy (ss : list (RunningService W)) (w : W)
  : list (Completion bool) * W :=
  match ss with
  | [] => ([], w)
  | s :: rest =>
      let '(c, w') := isHealthy s w in
      let '(cs, w'') := all_healthy rest w' in
      (c :: cs, w'')
  end.

Fixpoint every_Boolean (cs : list (Completion bool)) : Completion bool :=
  match cs with
  | [] => Normal true
  | Throw e :: _ => Throw e
  | Normal b :: rest =>
      match every_Boolean rest with
      | Normal r => Normal (b && r)
      | Throw e => Throw e
      end
  end.

Definition make_cluster (services : list (RunningService W))
  : ServiceCluster W :=
  {| services := services;
     stopAll := for_of (rev services) stop_quietly;
     get := fun n => find (fun s => String.eqb (name s) n) services;
     cluster_isHealthy := fun w =>
       let '(cs, w') := all_healthy services w in (every_Boolean cs, w') |}.

Definition startCluster (configs : list ServiceConfig)
  : Promise W (ServiceCluster W) :=
  fun w =>
    match start_each configs [] w with
    | (Throw error, services, w1) =>
        (* Cleanup already-started services on failure *)
        match for_of (rev services) stop_quietly w1 with
        | (Normal _, w2) => (Throw error, w2)
        | (Throw later, w2) => (Throw later, w2)
        end
    | (Normal _, services, w1) => (Normal (make_cluster services), w1)
    end.

(** What a run of stops leaves, whatever each stop answers. *)
Definition stopped_in_turn (ss : list (RunningService W)) (w : W) : W :=
  fold_left (fun w s => snd (stop s w)) ss w.

End Cluster.

(** ** The host: child process, network, clock *)

Inductive Signal := SIGTERM | SIGKILL | SIGINT | SIGSEGV.

Inductive ExitStatus :=
| Exited (code : Z)
| Signaled (sig : Signal).

Inductive FetchResult :=
| Response (status : Z)
| NetworkError.

Record FetchOutcome := {
  latency : nat;          (* ms until the response or the failure *)
  result : FetchResult;
}.

(** [res.ok] *)
Definition ok (status : Z) : bool := (200 <=? status)%Z && (status <=? 299)%Z.

(** What the spawned command does, left to itself.  Times are milliseconds
    after the spawn. *)
Record Child := {
  child_pid : Z;
  out : nat -> string;                   (* text written to stdout in that ms *)
  err : nat -> string;                   (* the same for stderr *)
  halt : option (nat * ExitStatus);      (* when and how it ends by itself *)
  onSIGTERM : option (nat * ExitStatus); (* None: the signal is ignored *)
  vmRSS : nat -> option Z;               (* kB in /proc/<pid>/status, if readable *)
}.

Record Host := {
  program : Child;
  fetch : string -> nat -> FetchOutcome; (* by url and time of the request *)
  nvidia_smi : bool;                     (* execSync("nvidia-smi") succeeds *)
}.

(** The fields of Node's [ChildProcess] that the code reads.  Node records
    an exit in [exitCode] when the child exited by itself and in
    [signalCode] when a signal ended it; [killed] says that [kill] has
    delivered a signal through this handle. *)
Record ChildProcess := {
  proc_pid : Z;
  killed : bool;
  exitCode : option Z;
  signalCode : option Signal;
}.

Record Sys := {
  now : nat;                          (* Date.now(), ms since the spawn *)
  proc : ChildProcess;
  fate : option (nat * ExitStatus);   (* when and how the child ends *)
  out_text : string;                  (* let stdout *)
  err_text : string;                  (* let stderr *)
  activeProcesses : gset Z;
}.

Definition has_exited (p : ChildProcess) : bool :=
  bool_decide (is_Some (exitCode p)) || bool_decide (is_Some (signalCode p)).

(** The child is a live operating-system process. *)
Definition running (w : Sys) : bool :=
  negb (has_exited (proc w))
  && match fate w with
     | Some (d, _) => (now w <? d)%nat
     | None => true
     end.

Definition set_proc (p : ChildProcess) (w : Sys) : Sys :=
  {| now := now w; proc := p; fate := fate w; out_text := out_text w;
     err_text := err_text w; activeProcesses := activeProcesses w |}.

Definition record_exit (st : ExitStatus) (p : ChildProcess) : ChildProcess :=
  match st with
  | Exited c =>
      {| proc_pid := proc_pid p; killed := killed p; exitCode := Some c;
         signalCode := signalCode p |}
  | Signaled s =>
      {| proc_pid := proc_pid p; killed := killed p; exitCode := exitCode p;
         signalCode := Some s |}
  end.

(** The earlier of two ends. *)
Definition sooner (a b : option (nat * ExitStatus))
  : option (nat * ExitStatus) :=
  match a, b with
  | Some (ta, sa), Some (tb, sb) =>
      if (tb <? ta)%nat then Some (tb, sb) else Some (ta, sa)
  | Some x, None => Some x
  | None, y => y
  end.

(** [setTimeout]/[setInterval] take the delay as a 32-bit count of
    milliseconds, at least 1: anything else is run as 1. *)
Definition timer_delay (ms : Z) : nat :=
  if (ms <? 1)%Z || (2147483647 <? ms)%Z then 1%nat else Z.to_nat ms.

Definition nl : string := String (ascii_of_nat 10) EmptyString.

(** The readiness promise of [waitForReady] with its two timers and the
    requests of the url poll that are still under way. *)
Record Latch := {
  sys : Sys;
  settled : option (Completion unit);
  timeoutArmed : bool;
  intervalArmed : bool;
  inflight : list (nat * FetchResult);   (* response time, response *)
}.

Definition set_sys (w : Sys) (l : Latch) : Latch :=
  {| sys := w; settled := settled l; timeoutArmed := timeoutArmed l;
     intervalArmed := intervalArmed l; inflight := inflight l |}.

Definition clearTimeout (l : Latch) : Latch :=
  {| sys := sys l; settled := settled l; timeoutArmed := false;
     intervalArmed := intervalArmed l; inflight := inflight l |}.

Definition clearInterval (l : Latch) : Latch :=
  {| sys := sys l; settled := settled l; timeoutArmed := timeoutArmed l;
     intervalArmed := false; inflight := inflight l |}.

(** A promise settles once; later calls of [resolve] and [reject] are
    ignored. *)
Definition settle (c : Completion unit) (l : Latch) : Latch :=
  {| sys := sys l;
     settled := match settled l with Some c0 => Some c0 | None => Some c end;
     timeoutArmed := timeoutArmed l; intervalArmed := intervalArmed l;
     inflight := inflight l |}.

Definition resolve : Latch -> Latch := settle (Normal tt).
Definition reject (e : Error) : Latch -> Latch := settle (Throw e).

Definition request (r : nat * FetchResult) (l : Latch) : Latch :=
  {| sys := sys l; settled := settled l; timeoutArmed := timeoutArmed l;
     intervalArmed := intervalArmed l; inflight := inflight l ++ [r] |}.

Definition set_inflight (rs : list (nat * FetchResult)) (l : Latch) : Latch :=
  {| sys := sys l; settled := settled l; timeoutArmed := timeoutArmed l;
     intervalArmed := intervalArmed l; inflight := rs |}.

Section Service.
Variable host : Host.

(** [spawn(command, args, ...)] then [registerProcess(proc)] *)
Definition spawn : Sys :=
  {| now := 0;
     proc := {| proc_pid := child_pid (program host); killed := false;
                exitCode := None; signalCode := None |};
     fate := halt (program host);
     out_text := ""; err_text := "";
     activeProcesses := ∅ |}.

Definition registerProcess (w : Sys) : Sys :=
  {| now := now w; proc := proc w; fate := fate w; out_text := out_text w;
     err_text := err_text w;
     activeProcesses := {[ proc_pid (proc w) ]} ∪ activeProcesses w |}.

(** One millisecond of the host: the child's writes reach the two [data]
    listeners of [startService], and when the child's time has come the
    handle records the exit and the [exit] listener of [registerProcess]
    takes it out of the registry. *)
Definition advance (w : Sys) : Sys :=
  let t := S (now w) in
  let p := proc w in
  let writes :=
    negb (has_exited p)
    && match fate w with Some (d, _) => (t <=? d)%nat | None => true end in
  let ending :=
    if has_exited p then None
    else match fate w with
         | Some (d, st) => if (d <=? t)%nat then Some st else None
         | None => None
         end in
  {| now := t;
     proc := match ending with Some st => record_exit st p | None => p end;
     fate := fate w;
     out_text := if writes then out_text w +:+ out (program host) t
                 else out_text w;
     err_text := if writes then err_text w +:+ err (program host) t
                 else err_text w;
     activeProcesses :=
       match ending with
       | Some _ => activeProcesses w ∖ {[ proc_pid p ]}
       | None => activeProcesses w
       end |}.

(** The world [n] ms later when nobody interferes. *)
Definition later (n : nat) (w : Sys) : Sys := Nat.iter n advance w.

(** How the child takes a signal sent at time [t]. *)
Definition reaction (sig : Signal) (t : nat) : option (nat * ExitStatus) :=
  match sig with
  | SIGTERM =>
      match onSIGTERM (program host) with
      | Some (d, st) => Some ((t + d)%nat, st)
      | None => None
      end
  | _ => Some (t, Signaled sig)
  end.

(** [proc.kill(sig)]: true and [killed] set when the signal went out,
    false when the child was already gone. *)
Definition kill (sig : Signal) (w : Sys) : bool * Sys :=
  let p := proc w in
  if has_exited p then (false, w)
  else
    (true,
     {| now := now w;
        proc := {| proc_pid := proc_pid p; killed := true;
                   exitCode := exitCode p; signalCode := signalCode p |};
        fate := sooner (fate w) (reaction sig (now w));
        out_text := out_text w; err_text := err_text w;
        activeProcesses := activeProcesses w |}).

(** [() => stdout + stderr] *)
Definition getOutput (w : Sys) : string := out_text w +:+ err_text w.

(** *** waitForReady *)

(** The callback of the start timer. *)
Definition on_timeout (name : string) (timeoutMs : Z) (l : Latch) : Latch :=
  let w := snd (kill SIGKILL (sys l)) in
  reject ("[" +:+ name +:+ "] Not ready within " +:+ Js.show timeoutMs
          +:+ "ms." +:+ nl +:+ "Output: "
          +:+ Js.slice_last 500 (getOutput w))
         (set_sys w l).

Definition check (sig : string) (l : Latch) : bool * Latch :=
  if Js.includes (getOutput (sys l)) sig
  then (true, resolve (clearTimeout l))
  else (false, l).

(** The callback of the 50 ms interval of the signal strategy. *)
Definition on_signal_tick (name sig : string) (l : Latch) : Latch :=
  let '(hit, l1) := check sig l in
  let l2 := if hit then clearInterval l1 else l1 in
  match exitCode (proc (sys l2)) with
  | Some code =>
      reject ("[" +:+ name +:+ "] Exited with code " +:+ Js.show code
              +:+ " before ready." +:+ nl +:+ "Output: "
              +:+ Js.slice_last 500 (getOutput (sys l2)))
             (clearTimeout (clearInterval l2))
  | None => l2
  end.

(** The callback of the url interval up to its [await]: the request goes
    out, bounded by [AbortSignal.timeout(1000)]. *)
Definition on_url_tick (u : string) (l : Latch) : Latch :=
  let t := now (sys l) in
  let o := fetch host u t in
  if (latency o <? 1000)%nat
  then request ((t + latency o)%nat, result o) l
  else request ((t + 1000)%nat, NetworkError) l.

(** The rest of that callback, once the request has come back. *)
Definition on_response (r : FetchResult) (l : Latch) : Latch :=
  match r with
  | Response status =>
      if ok status then resolve (clearTimeout (clearInterval l)) else l
  | NetworkError => l   (* not ready yet *)
  end.

Inductive Strategy :=
| BySignal (sig : string)
| ByUrl (u : string) (every : nat).

Definition on_tick (name : string) (how : Strategy) : Latch -> Latch :=
  match how with
  | BySignal sig => on_signal_tick name sig
  | ByUrl u _ => on_url_tick u
  end.

Definition period (how : Strategy) : nat :=
  match how with
  | BySignal _ => 50%nat
  | ByUrl _ every => every
  end.

(** What a millisecond brings in: the child's output and exit, and the
    responses that have come back, each resuming its callback. *)
Definition arrivals (l : Latch) : Latch :=
  let l0 := set_sys (advance (sys l)) l in
  let t := now (sys l0) in
  let arrived := List.filter (fun r => (fst r <=? t)%nat) (inflight l0) in
  let waiting :=
    List.filter (fun r => negb (fst r <=? t)%nat) (inflight l0) in
  fold_left (fun l r => on_response (snd r) l) arrived
            (set_inflight waiting l0).

(** The timers that are due [k] ms after they were set: the start timer
    before the interval, which was set after it. *)
Definition timers (name : string) (timeoutMs : Z) (how : Strategy)
    (k : nat) (l : Latch) : Latch :=
  let l1 := if timeoutArmed l && (k =? timer_delay timeoutMs)%nat
            then on_timeout name timeoutMs (clearTimeout l) else l in
  if intervalArmed l1 && (k mod period how =? 0)%nat
  then on_tick name how l1 else l1.

(** The [k]-th millisecond of the wait: first what arrived, then the
    timers. *)
Definition turn (name : string) (timeoutMs : Z) (how : Strategy)
    (k : nat) (l : Latch) : Latch :=
  timers name timeoutMs how k (arrivals l).

(** The event loop until the promise settles: that is where the [await]
    in [startService] resumes. *)
Fixpoint event_loop (name : string) (timeoutMs : Z) (how : Strategy)
    (fuel k : nat) (l : Latch) : Latch :=
  match settled l, fuel with
  | None, S fuel' =>
      event_loop name timeoutMs how fuel' (S k)
                 (turn name timeoutMs how (S k) l)
  | _, _ => l
  end.

Definition waitForReady (name : string) (ready : Ready) (timeoutMs : Z)
    (w : Sys) : Latch :=
  let l0 := {| sys := w; settled := None; timeoutArmed := true;
               intervalArmed := false; inflight := [] |} in
  let armed := {| sys := w; settled := None; timeoutArmed := true;
                  intervalArmed := true; inflight := [] |} in
  let fuel := timer_delay timeoutMs in
  match signal ready, url ready with
  | Some (String c s), _ =>
      event_loop name timeoutMs (BySignal (String c s)) fuel 0 armed
  | _, Some (String c u) =>
      let every := timer_delay (default 500%Z (pollMs ready)) in
      event_loop name timeoutMs (ByUrl (String c u) every) fuel 0 armed
  | _, _ =>
      reject ("[" +:+ name +:+ "] No ready signal or URL configured")
             (clearTimeout l0)
  end.

(** *** stopProcess *)

(** The promise of [stopProcess] after [SIGTERM] went out, [left] ms
    before the [forceKill] timer: the [exit] listener resolves it when the
    handle reports the exit, the timer when its time has come. *)
Fixpoint await_exit (left : nat) (w : Sys) : Sys :=
  match left with
  | O => snd (kill SIGKILL w)
  | S left' =>
      let w' := advance w in
      if negb (has_exited (proc w)) && has_exited (proc w')
      then w'
      else await_exit left' w'
  end.

Definition stopProcess (name : string) (timeoutMs : Z) : Promise Sys unit :=
  fun w =>
    if killed (proc w) || bool_decide (is_Some (exitCode (proc w)))
    then (Normal tt, w)
    else
      let w1 := snd (kill SIGTERM w) in
      (Normal tt, await_exit (timer_delay timeoutMs) w1).

(** *** getProcessMemory, checkGpu *)

(** [Math.round(Number(match[1]) / 1024)] of the [VmRSS] line; [null] when
    the file cannot be read or has no such line. *)
Definition getProcessMemory (w : Sys) : option Z :=
  match vmRSS (program host) (now w) with
  | Some kB => Some ((kB + 512) / 1024)%Z
  | None => None
  end.

Definition checkGpu : bool := nvidia_smi host.

(** *** startService *)

Definition isAlive_of (w : Sys) : bool :=
  negb (killed (proc w)) && negb (bool_decide (is_Some (exitCode (proc w)))).

Definition isHealthy_of (health : option Health) : Promise Sys bool :=
  fun w =>
    match health with
    | Some {| health_url := String c u |} =>
        let o := fetch host (String c u) (now w) in
        if (latency o <? 2000)%nat
        then (Normal match result o with
                     | Response status => ok status
                     | NetworkError => false
                     end,
              later (latency o) w)
        else (Normal false, later 2000 w)
    | _ => (Normal (isAlive_of w), w)
    end.

Definition service_of (config : ServiceConfig) (startedAt : nat)
    (w : Sys) : RunningService Sys :=
  {| name := cfg_name config;
     pid := proc_pid (proc w);
     stdout := out_text;
     stderr := err_text;
     startupMs := Z.of_nat (now w - startedAt);
     isAlive := isAlive_of;
     isHealthy := isHealthy_of (health config);
     stop := stopProcess (cfg_name config)
                         (default 5000%Z (stopTimeoutMs config));
     stats := fun w' =>
       {| stats_pid := proc_pid (proc w');
          uptimeMs := Z.of_nat (now w' - startedAt);
          memoryMb := getProcessMemory w' |} |}.

Inductive Start :=
| Refused (e : Error)                 (* thrown before anything was spawned *)
| Failed (e : Error) (w : Sys)        (* thrown with the child spawned *)
| Started (service : RunningService Sys) (w : Sys)
| Unsettled (w : Sys).                (* the await never resumes *)

Definition requires_gpu (config : ServiceConfig) : bool :=
  match requires config with
  | Some r => default false (gpu r)
  | None => false
  end.

Definition startService (config : ServiceConfig) : Start :=
  if requires_gpu config && negb checkGpu
  then Refused ("[" +:+ cfg_name config
                +:+ "] Requires GPU but none detected. Skip with: scenario.skip(...)")
  else
    let w0 := registerProcess spawn in
    let startedAt := now w0 in
    let l := waitForReady (cfg_name config) (ready config)
                          (default 15000%Z (startTimeoutMs config)) w0 in
    match settled l with
    | Some (Normal _) => Started (service_of config startedAt (sys l)) (sys l)
    | Some (Throw e) => Failed e (sys l)
    | None => Unsettled (sys l)
    end.

End Service.

(** ** The mock AI provider *)

Record MockProviderOptions := {
  latencyMs : option Z;        (* default: 10 *)
  response : option string;    (* default: "Mock response" *)
  failAfter : option Z;        (* default: Infinity *)
  errorMessage : option string (* default: "Mock provider error" *)
}.

Record LogEntry := {
  log_model : string;
  timestamp : Z;
  durationMs : Z;
}.

Record MockProviderStats := {
  totalRequests : Z;
  activeRequests : Z;
  maxConcurrent : Z;
  requestLog : list LogEntry;
}.

(** What [complete] returns; the constant fields ([object], [index],
    [role], [finish_reason], [usage]) are left out. *)
Record ChatCompletion := {
  completion_id : string;
  created : Z;
  completion_model : string;
  content : string;
}.

Definition fresh_stats : MockProviderStats :=
  {| totalRequests := 0; activeRequests := 0; maxConcurrent := 0;
     requestLog := [] |}.

(** [stats.totalRequests > failAfter] *)
Definition exceeds (total : Z) (limit : option Z) : bool :=
  match limit with
  | Some n => (n <? total)%Z
  | None => false
  end.

(** [complete] up to its [await]: the counters go up, and past [failAfter]
    the call throws at once. *)
Definition complete_enter (options : MockProviderOptions)
    (stats : MockProviderStats) : Completion unit * MockProviderStats :=
  let total := (totalRequests stats + 1)%Z in
  let active := (activeRequests stats + 1)%Z in
  let most := Z.max (maxConcurrent stats) active in
  if exceeds total (failAfter options)
  then (Throw (default "Mock provider error" (errorMessage options)),
        {| totalRequests := total; activeRequests := (active - 1)%Z;
           maxConcurrent := most; requestLog := requestLog stats |})
  else (Normal tt,
        {| totalRequests := total; activeRequests := active;
           maxConcurrent := most; requestLog := requestLog stats |}).

(** [complete] after its [await], at the time [t]: one request fewer is
    active, the call is logged and answered.  The id is read off the
    counter as it stands then. *)
Definition complete_leave (options : MockProviderOptions) (model : string)
    (start t : Z) (stats : MockProviderStats)
  : ChatCompletion * MockProviderStats :=
  let stats' :=
    {| totalRequests := totalRequests stats;
       activeRequests := (activeRequests stats - 1)%Z;
       maxConcurrent := maxConcurrent stats;
       requestLog := (requestLog stats
                      ++ [{| log_model := model; timestamp := start;
                             durationMs := (t - start)%Z |}])%list |} in
  ({| completion_id := "mock-" +:+ Js.show (totalRequests stats');
      created := (t / 1000)%Z;
      completion_model := model;
      content := default "Mock response" (response options) |},
   stats').

(** [reset()] *)
Definition reset (stats : MockProviderStats) : MockProviderStats := fresh_stats.

(** A provider at work: its counters, the clock, and the calls that are
    waiting for their timer, each with its model and its start. *)
Record Provider := {
  provider_stats : MockProviderStats;
  provider_clock : Z;
  pending : list (string * Z);
}.

Inductive ProviderEvent :=
| Call (model : string)        (* complete(model, ...) is called *)
| Wake (i : nat)               (* the timer of the i-th waiting call fires *)
| Pass (ms : Z).               (* time passes *)

(** What comes out of an event: nothing, a rejection, or a completion. *)
Inductive Outcome :=
| Quiet
| Rejects (e : Error)
| Answers (c : ChatCompletion).

Definition provider_step (options : MockProviderOptions) (p : Provider)
    (ev : ProviderEvent) : Outcome * Provider :=
  match ev with
  | Call model =>
      match complete_enter options (provider_stats p) with
      | (Throw e, stats') =>
          (Rejects e,
           {| provider_stats := stats'; provider_clock := provider_clock p;
              pending := pending p |})
      | (Normal _, stats') =>
          (Quiet,
           {| provider_stats := stats'; provider_clock := provider_clock p;
              pending := (pending p ++ [(model, provider_clock p)])%list |})
      end
  | Wake i =>
      match pending p !! i with
      | Some (model, start) =>
          let '(c, stats') :=
            complete_leave options model start (provider_clock p)
                           (provider_stats p) in
          (Answers c,
           {| provider_stats := stats'; provider_clock := provider_clock p;
              pending := delete i (pending p) |})
      | None => (Quiet, p)
      end
  | Pass ms =>
      (Quiet,
       {| provider_stats := provider_stats p;
          provider_clock := (provider_clock p + Z.max 0 ms)%Z;
          pending := pending p |})
  end.

Fixpoint provider_run (options : MockProviderOptions) (p : Provider)
    (evs : list ProviderEvent) : list Outcome * Provider :=
  match evs with
  | [] => ([], p)
  | ev :: rest =>
      let '(o, p') := provider_step options p ev in
      let '(os, p'') := provider_run options p' rest in
      (o :: os, p'')
  end.

Definition createMockProvider (t : Z) : Provider :=
  {| provider_stats := fresh_stats; provider_clock := t; pending := [] |}.

(** [await provider.complete(model, [])] with nothing else going on: the
    call enters, its timer runs, the call leaves. *)
Definition complete (options : MockProviderOptions) (model : string)
  : Promise Provider ChatCompletion :=
  fun p =>
    match complete_enter options (provider_stats p) with
    | (Throw e, stats') =>
        (Throw e,
         {| provider_stats := stats'; provider_clock := provider_clock p;
            pending := pending p |})
    | (Normal _, stats') =>
        let start := provider_clock p in
        let t := (start + Z.of_nat (timer_delay
                                      (default 10%Z (latencyMs options))))%Z in
        let '(c, stats'') := complete_leave options model start t stats' in
        (Normal c,
         {| provider_stats := stats''; provider_clock := t;
            pending := pending p |})
    end.

(** ** Mock auth profiles *)

Record MockAuthProfile := {
  type : string;
  provider : string;
  access : string;
  refresh : string;
  expires : Z;
}.

Definition profileId (p : string) : string :=
  if String.eqb p "google-gemini-cli"
  then p +:+ ":test@example.com"
  else p +:+ ":default".

Definition default_providers : list string :=
  ["openai-codex"; "anthropic"; "google-gemini-cli"].

(** [createMockAuthProfiles(providers)] at the time [t] of [Date.now()]. *)
Definition createMockAuthProfiles (t : Z) (providers : list string)
  : gmap string MockAuthProfile :=
  fold_left
    (fun profiles p =>
       <[ profileId p :=
            {| type := "oauth"; provider := p;
               access := "mock-access-" +:+ p;
               refresh := "mock-refresh-" +:+ p;
               expires := (t + 3600000)%Z |} ]> profiles)
    providers ∅.

(** [createExpiredMockAuthProfiles(providers)]: the profiles are made at
    [t0] and their expiry is set at [t], no earlier. *)
Definition createExpiredMockAuthProfiles (t0 t : Z) (providers : list string)
  : gmap string MockAuthProfile :=
  (fun profile =>
     {| type := type profile; provider := provider profile;
        access := access profile; refresh := refresh profile;
        expires := (t - 3600000)%Z |})
  <$> createMockAuthProfiles t0 providers.

(** ** Counting what a provider was asked and what it answered *)

Definition calls (evs : list ProviderEvent) : nat :=
  length (List.filter (fun ev => match ev with Call _ => true | _ => false end)
                      evs).

Definition answers (os : list Outcome) : nat :=
  length (List.filter (fun o => match o with Answers _ => true | _ => false end)
                      os).

Definition rejections (os : list Outcome) : nat :=
  length (List.filter (fun o => match o with Rejects _ => true | _ => false end)
                      os).

(** The calls of [models] awaited one after the other, a rejection not
    keeping the caller from the next call. *)
Fixpoint complete_in_turn (options : MockProviderOptions)
    (models : list string) (p : Provider)
  : list (Completion ChatCompletion) * Provider :=
  match models with
  | [] => ([], p)
  | model :: rest =>
      let '(c, p') := complete options model p in
      let '(cs, p'') := complete_in_turn options rest p' in
      (c :: cs, p'')
  end.

(** The counters of a provider agree with [c] calls so far, [r] of them
    rejected. *)
Definition counted (p : Provider) (c r : nat) : Prop :=
  let s := provider_stats p in
  totalRequests s = Z.of_nat c
  /\ activeRequests s = Z.of_nat (length (pending p))
  /\ (activeRequests s <= maxConcurrent s)%Z
  /\ (maxConcurrent s <= totalRequests s)%Z
  /\ (length (requestLog s) + length (pending p) + r = c)%nat.

(** How many of [c] calls are past the limit. *)
Definition past_limit (limit : option Z) (c : nat) : nat :=
  match limit with
  | Some n => Z.to_nat (Z.of_nat c - Z.max 0 n)
  | None => 0%nat
  end.

(** The profile that [createMockAuthProfiles] makes for a provider at the
    time [t]. *)
Definition mock_profile (t : Z) (p : string) : MockAuthProfile :=
  {| type := "oauth"; provider := p;
     access := "mock-access-" +:+ p;
     refresh := "mock-refresh-" +:+ p;
     expires := (t + 3600000)%Z |}.

(** ** The zombie registry, with every child of the test run

    [activeProcesses] is one [Set] for the whole module: it holds the
    handle of every child that any [startService] spawned and that has not
    reported its exit.  Here the world is all of these children at once.
    A handle is known by its place in [children], which stands for the
    identity of the [ChildProcess] object. *)

Module Registry.

Record World := {
  children : list ChildProcess;   (* every handle made so far *)
  alive : gset nat;               (* the handles whose child is a live process *)
  listening : gset nat;           (* the handles with the registry's exit listener *)
  activeProcesses : list nat;     (* the Set, in insertion order *)
}.

Definition empty : World :=
  {| children := []; alive := ∅; listening := ∅; activeProcesses := [] |}.

(** [Set.prototype.add] *)
Definition set_add (h : nat) (s : list nat) : list nat :=
  if bool_decide (h ∈ s) then s else (s ++ [h])%list.

(** [Set.prototype.delete] *)
Definition set_delete (h : nat) (s : list nat) : list nat :=
  List.filter (fun x => negb (x =? h)%nat) s.

(** [spawn(command, args, ...)]: a new handle for a new live child. *)
Definition spawn (pid : Z) (w : World) : nat * World :=
  let h := length (children w) in
  (h,
   {| children := (children w
                   ++ [{| proc_pid := pid; killed := false; exitCode := None;
                          signalCode := None |}])%list;
      alive := {[ h ]} ∪ alive w;
      listening := listening w;
      activeProcesses := activeProcesses w |}).

(** [registerProcess(proc)] *)
Definition registerProcess (h : nat) (w : World) : World :=
  {| children := children w;
     alive := alive w;
     listening := {[ h ]} ∪ listening w;
     activeProcesses := set_add h (activeProcesses w) |}.

(** [proc.kill(sig)]: false when the handle has reported an exit; else the
    signal goes out and [killed] is set.  [SIGKILL] ends the child; what
    another signal does shows, if at all, in a later exit. *)
Definition kill (h : nat) (sig : Signal) (w : World) : bool * World :=
  match children w !! h with
  | Some p =>
      if has_exited p then (false, w)
      else
        (true,
         {| children :=
              <[ h := {| proc_pid := proc_pid p; killed := true;
                         exitCode := exitCode p;
                         signalCode := signalCode p |} ]> (children w);
            alive := match sig with
                     | SIGKILL => alive w ∖ {[ h ]}
                     | _ => alive w
                     end;
            listening := listening w;
            activeProcesses := activeProcesses w |})
  | None => (false, w)
  end.

(** The child of [h] is gone and the handle emits [exit]: the status is
    recorded and the listener of [registerProcess], if the handle has it,
    takes the handle out of the Set. *)
Definition emit_exit (h : nat) (st : ExitStatus) (w : World) : World :=
  match children w !! h with
  | Some p =>
      if has_exited p then w
      else
        {| children := <[ h := record_exit st p ]> (children w);
           alive := alive w ∖ {[ h ]};
           listening := listening w;
           activeProcesses :=
             if bool_decide (h ∈ listening w)
             then set_delete h (activeProcesses w)
             else activeProcesses w |}
  | None => w
  end.

(** [killAll]: [SIGKILL] to every handle in the Set, a failure of [kill]
    ignored, then [activeProcesses.clear()]. *)
Definition killAll (w : World) : World :=
  let w1 := fold_left (fun w h => snd (kill h SIGKILL w))
                      (activeProcesses w) w in
  {| children := children w1;
     alive := alive w1;
     listening := listening w1;
     activeProcesses := [] |}.

(** What happens to the registry in a test run. *)
Inductive Event :=
| Spawn (pid : Z)                  (* startService: spawn, then registerProcess *)
| Kill (h : nat) (sig : Signal)    (* stopProcess or the start timer: proc.kill *)
| Exit (h : nat) (st : ExitStatus) (* a child ends *)
| Sweep.                           (* exit, SIGINT, SIGTERM, uncaughtException *)

Definition step (w : World) (ev : Event) : World :=
  match ev with
  | Spawn pid => let '(h, w1) := spawn pid w in registerProcess h w1
  | Kill h sig => snd (kill h sig w)
  | Exit h st => emit_exit h st w
  | Sweep => killAll w
  end.

Definition run (evs : list Event) : World := fold_left step evs empty.

(** The handle [h] exists and has not reported an exit. *)
Definition unreported (w : World) (h : nat) : Prop :=
  exists p, children w !! h = Some p /\ has_exited p = false.

(** The registry does its job: every live child is in the Set, whatever is
    in the Set is a handle with no exit reported, and every handle has the
    listener. *)
Definition tracking (w : World) : Prop :=
  (forall h, h ∈ alive w -> h ∈ activeProcesses w)
  /\ (forall h, h ∈ activeProcesses w -> unreported w h)
  /\ (forall h, (h < length (children w))%nat -> h ∈ listening w).

End Registry.

(** ** Test doubles

    The object literals that [test/service.test.ts] passes for a
    [RunningService], and doubles that keep a record of the calls they
    receive. *)

(** [{ name, pid: 1, stdout: "", stderr: "", startupMs, isAlive: () => true,
      isHealthy: async () => true, stop: async () => {},
      stats: () => ({ pid: 1, uptimeMs: 1000, memoryMb }) }] *)
Definition mock_service (n : string) (startup : Z) (memory : option Z)
  : RunningService unit :=
  {| name := n; pid := 1; stdout := fun _ => ""; stderr := fun _ => "";
     startupMs := startup;
     isAlive := fun _ => true;
     isHealthy := ret true;
     stop := ret tt;
     stats := fun _ =>
       {| stats_pid := 1; uptimeMs := 1000; memoryMb := memory |} |}.

(** A service whose [stop] writes its name into a journal, and rejects when
    [failing]. *)
Definition journal_service (n : string) (failing : bool)
  : RunningService (list string) :=
  {| name := n; pid := 1; stdout := fun _ => ""; stderr := fun _ => "";
     startupMs := 0;
     isAlive := fun _ => true;
     isHealthy := ret true;
     stop := fun journal =>
       (if failing then Throw ("[" +:+ n +:+ "] stop failed") else Normal tt,
        (journal ++ [n])%list);
     stats := fun _ =>
       {| stats_pid := 1; uptimeMs := 0; memoryMb := None |} |}.

Definition plain_config (n cmd : string) : ServiceConfig :=
  {| cfg_name := n; command := cmd; args := []; cwd := None; env := None;
     ready := {| signal := Some "ready"; url := None; pollMs := None |};
     health := None; startTimeoutMs := None; stopTimeoutMs := None;
     requires := None |}.

(** A [startService] for the journal: the command [false] never gets ready,
    the command [stubborn] gives a service whose [stop] rejects. *)
Definition journal_start (config : ServiceConfig)
  : Promise (list string) (RunningService (list string)) :=
  fun journal =>
    if String.eqb (command config) "false"
    then (Throw ("[" +:+ cfg_name config +:+ "] Not ready"), journal)
    else (Normal (journal_service (cfg_name config)
                    (String.eqb (command config) "stubborn")), journal).

(** ** Runs of starts

    [started_in_order start configs w ss w']: from the world [w] the
    configs start one after the other, none failing, giving the services
    [ss] in that order and leaving [w']. *)
Inductive started_in_order {W : Type}
    (start : ServiceConfig -> Promise W (RunningService W))
  : list ServiceConfig -> W -> list (RunningService W) -> W -> Prop :=
| started_none w : started_in_order start [] w [] w
| started_next config configs w s w1 ss w2 :
    start config w = (Normal s, w1) ->
    started_in_order start configs w1 ss w2 ->
    started_in_order start (config :: configs) w (s :: ss) w2.

(** ** Words for the readiness theorems *)

(** A response that lets the url strategy succeed. *)
Definition succeeds (r : FetchResult) : bool :=
  match r with
  | Response status => ok status
  | NetworkError => false
  end.

(** The request of the url poll at time [t] brings a successful response,
    in time for the poll's own bound of one second, no later than [limit]. *)
Definition answered_by (host : Host) (u : string) (limit t : nat) : bool :=
  let o := fetch host u t in
  (latency o <? 1000)%nat && succeeds (result o)
  && (t + latency o <=? limit)%nat.

(** The message of the start timer. *)
Definition timeout_message (name : string) (timeoutMs : Z) (output : string)
  : string :=
  "[" +:+ name +:+ "] Not ready within " +:+ Js.show timeoutMs +:+ "ms."
  +:+ nl +:+ "Output: " +:+ Js.slice_last 500 output.

(** The message for a child that exited too early. *)
Definition exit_message (name : string) (code : Z) (output : string)
  : string :=
  "[" +:+ name +:+ "] Exited with code " +:+ Js.show code
  +:+ " before ready." +:+ nl +:+ "Output: " +:+ Js.slice_last 500 output.

(** The world in which [startService] begins to wait: the child spawned
    and registered. *)
Definition spawned (host : Host) : Sys := registerProcess (spawn host).

(** Nothing makes the wait of [startService] end before its start timer:
    under the signal strategy no tick of the 50 ms interval finds the
    signal or an exit code, under the url strategy no request of the poll
    is answered with success by the time the timer is due. *)
Definition stays_unready (host : Host) (config : ServiceConfig) : Prop :=
  let D := timer_delay (default 15000%Z (startTimeoutMs config)) in
  match signal (ready config), url (ready config) with
  | Some (String c s), _ =>
      forall j : nat, (1 <= j)%nat -> (50 * j < D)%nat ->
        Js.includes (getOutput (later host (50 * j) (spawned host)))
                    (String c s) = false
        /\ exitCode (proc (later host (50 * j) (spawned host))) = None
  | _, Some (String c u) =>
      let every := timer_delay (default 500%Z (pollMs (ready config))) in
      forall t : nat, (1 <= t < D)%nat -> (t mod every = 0)%nat ->
        answered_by host (String c u) D t = false
  | _, _ => False
  end.

(** ** Sample hosts and configs *)

(** A child that writes [text] to stdout [at_ms] after its spawn, ends as
    [ends] says, takes [SIGTERM] as [on_term] says, and whose resident
    memory is 50 MB. *)
Definition child_that (at_ms : nat) (text : string)
    (ends on_term : option (nat * ExitStatus)) : Child :=
  {| child_pid := 4321;
     out := fun t => if (t =? at_ms)%nat then text else "";
     err := fun _ => "";
     halt := ends;
     onSIGTERM := on_term;
     vmRSS := fun _ => Some 51200%Z |}.

(** The default action of [SIGTERM]. *)
Definition dies_of_it : option (nat * ExitStatus) :=
  Some (0%nat, Signaled SIGTERM).

(** No server answers. *)
Definition offline (u : string) (t : nat) : FetchOutcome :=
  {| latency := 3; result := NetworkError |}.

Definition host_of (c : Child) : Host :=
  {| program := c; fetch := offline; nvidia_smi := false |}.

Definition config_of (r : Ready) (start_timeout : option Z) : ServiceConfig :=
  {| cfg_name := "svc"; command := "node"; args := ["server.js"];
     cwd := None; env := None; ready := r; health := None;
     startTimeoutMs := start_timeout; stopTimeoutMs := None;
     requires := None |}.

Definition by_signal (sig : string) : Ready :=
  {| signal := Some sig; url := None; pollMs := None |}.

Definition by_url (u : string) : Ready :=
  {| signal := None; url := Some u; pollMs := None |}.

Definition by_nothing : Ready :=
  {| signal := None; url := None; pollMs := None |}.

(** A server that stays up and says nothing. *)
Definition silent : Host := host_of (child_that 0 "" None dies_of_it).

(** A server that prints its ready line after 5 ms and stays up. *)
Definition prompt : Host :=
  host_of (child_that 5 "Ready on port 4321" None dies_of_it).

(** A program that prints a line after 5 ms and exits with code 7 after
    10 ms. *)
Definition crashing : Host :=
  host_of (child_that 5 "boom" (Some (10%nat, Exited 7)) dies_of_it).


(** A server that prints its ready line after 5 ms and is ended by a
    segmentation fault after 100 ms. *)
Definition faulting : Host :=
  host_of (child_that 5 "Ready on port 4321"
                      (Some (100%nat, Signaled SIGSEGV)) dies_of_it).


(** ** Words for the proofs about the wait *)

(** A response in flight is harmless when it is no success or comes after
    the moment [limit]. *)
Definition harmless (limit : nat) (r : nat * FetchResult) : Prop :=
  succeeds (snd r) = false \/ (limit < fst r)%nat.

(** The latch [k] ms into the wait that began in [w0], nothing having
    happened yet. *)
Definition waiting (host : Host) (timeoutMs : Z) (w0 : Sys) (k : nat)
    (l : Latch) : Prop :=
  sys l = later host k w0
  /\ settled l = None
  /\ timeoutArmed l = true
  /\ intervalArmed l = true
  /\ Forall (harmless (now w0 + timer_delay timeoutMs)) (inflight l).

(** What the interval's callback must find at [k] ms for the wait to go
    on. *)
Definition quiet_tick (host : Host) (timeoutMs : Z) (how : Strategy)
    (w0 : Sys) (k : nat) : Prop :=
  match how with
  | BySignal sig =>
      Js.includes (getOutput (later host k w0)) sig = false
      /\ exitCode (proc (later host k w0)) = None
  | ByUrl u _ =>
      answered_by host u (now w0 + timer_delay timeoutMs) (now w0 + k) = false
  end.

(** While the promise is pending the start timer is armed. *)
Definition timer_guards (l : Latch) : Prop :=
  settled l = None -> timeoutArmed l = true.

(** The world [startService] leaves, if it spawned a child. *)
Definition world_left (r : Start) : option Sys :=
  match r with
  | Refused _ => None
  | Failed _ w => Some w
  | Started _ w => Some w
  | Unsettled w => Some w
  end.

(** No signal went out through the handle unless the wait was rejected, and
    a resolved wait has disarmed its start timer. *)
Definition unharmed (l : Latch) : Prop :=
  (settled l = Some (Normal tt) -> timeoutArmed l = false)
  /\ ((forall e, settled l <> Some (Throw e)) -> killed (proc (sys l)) = false).

(** * Properties *)

(** ** Strings *)

Local Arguments String.append !_ _ / : simpl nomatch.

Lemma append_assoc (a b c : string) : (a +:+ b) +:+ c = a +:+ (b +:+ c).
Proof. induction a as [|x a IH]; simpl; [reflexivity | now rewrite IH]. Qed.

Lemma append_empty_r (a : string) : a +:+ "" = a.
Proof. induction a as [|x a IH]; simpl; [reflexivity | now rewrite IH]. Qed.

Lemma prefix_append (p rest : string) : String.prefix p (p +:+ rest) = true.
Proof.
  induction p as [|x p IH]; simpl.
  - now destruct rest.
  - destruct (ascii_dec x x) as [_|ne]; [exact IH | now elim ne].
Qed.

Lemma prefix_split (p s : string) :
  String.prefix p s = true -> exists rest, s = p +:+ rest.
Proof.
  revert s; induction p as [|x p IH]; intros s H.
  - exists s; reflexivity.
  - destruct s as [|y s]; simpl in H; [discriminate|].
    destruct (ascii_dec x y) as [->|_]; [|discriminate].
    destruct (IH s H) as [rest ->]. now exists rest.
Qed.

Lemma includes_here (sub rest : string) :
  Js.includes (sub +:+ rest) sub = true.
Proof.
  assert (unfold : forall s, Js.includes s sub
            = String.prefix sub s
              || match s with
                 | EmptyString => false
                 | String _ r => Js.includes r sub
                 end) by (now intros [|]).
  rewrite unfold, prefix_append. reflexivity.
Qed.

Lemma includes_skip (a s sub : string) :
  Js.includes s sub = true -> Js.includes (a +:+ s) sub = true.
Proof.
  intros H; induction a as [|x a IH]; simpl; [exact H|].
  rewrite IH. apply orb_true_r.
Qed.

(** [s.includes(sub)] says that [sub] lies somewhere in [s]. *)
Lemma includes_spec (s sub : string) :
  Js.includes s sub = true <-> exists a b, s = a +:+ sub +:+ b.
Proof.
  split.
  - induction s as [|x s IH]; cbn [Js.includes]; intros H.
    + rewrite orb_false_r in H.
      destruct (prefix_split _ _ H) as [rest E]. now exists "", rest.
    + apply orb_true_iff in H as [H|H].
      * destruct (prefix_split _ _ H) as [rest E]. now exists "", rest.
      * destruct (IH H) as (a & b & ->). now exists (String x a), b.
  - intros (a & b & ->). apply includes_skip, includes_here.
Qed.

Lemma includes_between (a sub b : string) :
  Js.includes (a +:+ sub +:+ b) sub = true.
Proof. apply includes_spec. now exists a, b. Qed.

(** Equations between concatenations that differ in bracketing only. *)
Ltac same_text :=
  repeat (cbn [String.append]; rewrite ?append_assoc); reflexivity.

(** [sub] lies in a message after the text [a] and before [b]. *)
Ltac found_after a b := apply includes_spec; exists a, b; same_text.

(** A name tag [[name]] at the head of a message. *)
Lemma includes_tag (n rest : string) :
  Js.includes ("[" +:+ n +:+ "]" +:+ rest) ("[" +:+ n +:+ "]") = true.
Proof.
  found_after "" rest.
Qed.

(** ** assertPerformance *)

(** C9: with only [maxStartupMs: M] required, [assertPerformance] throws a
    message holding [[name]] and "Startup too slow" when
    [startupMs > M], and returns when [startupMs <= M], the boundary
    [startupMs = M] included. *)
Theorem assertPerformance_startup :
  forall (W : Type) (s : RunningService W) (M : Z) (w : W),
    let only_startup :=
      {| maxStartupMs := Some M; maxMemoryMb := None; maxResponseMs := None |} in
    ((M < startupMs s)%Z <->
       exists e, assertPerformance s only_startup w = Throw e
                 /\ Js.includes e ("[" +:+ name s +:+ "]") = true
                 /\ Js.includes e "Startup too slow" = true)
    /\ ((startupMs s <= M)%Z <->
          assertPerformance s only_startup w = Normal tt)
    /\ assertPerformance (mock_service (name s) M None) only_startup tt
       = Normal tt.
Proof.
  intros W s M w only_startup. unfold assertPerformance; simpl.
  rewrite Z.ltb_irrefl.
  destruct (Z.ltb_spec M (startupMs s)) as [lt|ge].
  - split; [split|split; [split|reflexivity]].
    + intros _. eexists; split; [reflexivity|]. split.
      * apply (includes_tag (name s)).
      * found_after ("[" +:+ name s +:+ "] ")
          (": " +:+ Js.show (startupMs s) +:+ "ms > " +:+ Js.show M +:+ "ms").
    + intros _; exact lt.
    + lia.
    + discriminate.
  - split; [split|split; [split|reflexivity]].
    + lia.
    + intros (e & H & _); discriminate.
    + reflexivity.
    + intros _; exact ge.
Qed.

(** C10: when [stats().memoryMb] is [null], a [maxMemoryMb] requirement
    passes, however small the limit. *)
Theorem assertPerformance_memory_unknown :
  forall (W : Type) (s : RunningService W) (M : Z) (w : W),
    memoryMb (stats s w) = None ->
    assertPerformance s
      {| maxStartupMs := None; maxMemoryMb := Some M; maxResponseMs := None |} w
    = Normal tt.
Proof.
  intros W s M w H. unfold assertPerformance; simpl. now rewrite H.
Qed.

Lemma assertPerformance_memory_unknown_witness :
  memoryMb (stats (mock_service "test" 500 None) tt) = None
  /\ assertPerformance (mock_service "test" 500 None)
       {| maxStartupMs := None; maxMemoryMb := Some (-1)%Z;
          maxResponseMs := None |} tt
     = Normal tt.
Proof.
  split; [reflexivity|].
  apply (assertPerformance_memory_unknown unit (mock_service "test" 500 None)
           (-1)%Z tt).
  reflexivity.
Defined.

(** ** Clusters *)

Section ClusterFacts.
Context {W : Type}.
Variable start : ServiceConfig -> Promise W (RunningService W).

(** A loop of quiet stops runs every stop and never throws. *)
Lemma for_of_stop_quietly (ss : list (RunningService W)) (w : W) :
  for_of ss stop_quietly w = (Normal tt, stopped_in_turn ss w).
Proof.
  revert w; induction ss as [|s ss IH]; intros w; [reflexivity|].
  cbn [for_of]. unfold bind, stop_quietly at 1, catch, stopped_in_turn.
  cbn [fold_left]. destruct (stop s w) as [[[]|e] w']; apply IH.
Qed.

Lemma start_each_started (configs : list ServiceConfig) :
  forall acc w ss w',
    started_in_order start configs w ss w' ->
    start_each start configs acc w = (Normal tt, (acc ++ ss)%list, w').
Proof.
  induction configs as [|c configs IH]; intros acc w ss w' H;
    inversion H as [|? ? ? s w1 ss' ? Hs Hrest]; subst; cbn [start_each].
  - now rewrite app_nil_r.
  - rewrite Hs, (IH _ _ _ _ Hrest), <- app_assoc. reflexivity.
Qed.

Lemma start_each_normal (configs : list ServiceConfig) :
  forall acc w ss w',
    start_each start configs acc w = (Normal tt, ss, w') ->
    exists new, ss = (acc ++ new)%list
                /\ started_in_order start configs w new w'.
Proof.
  induction configs as [|c configs IH]; intros acc w ss w' H;
    cbn [start_each] in H.
  - inversion H; subst. exists []. split; [now rewrite app_nil_r|constructor].
  - destruct (start c w) as [[s|e] w1] eqn:E; [|discriminate].
    destruct (IH _ _ _ _ H) as (new & -> & run).
    exists (s :: new). split; [now rewrite <- app_assoc|].
    econstructor; eassumption.
Qed.

Lemma start_each_failing (pre : list ServiceConfig) :
  forall failing post acc w ss wK e wK',
    started_in_order start pre w ss wK ->
    start failing wK = (Throw e, wK') ->
    start_each start (pre ++ failing :: post) acc w
    = (Throw e, (acc ++ ss)%list, wK').
Proof.
  induction pre as [|c pre IH]; intros failing post acc w ss wK e wK' H F;
    inversion H as [|? ? ? s w1 ss' ? Hs Hrest]; subst;
    cbn [start_each app].
  - now rewrite F, app_nil_r.
  - rewrite Hs, (IH _ _ _ _ _ _ _ _ Hrest F), <- app_assoc. reflexivity.
Qed.

Lemma started_length configs w ss w' :
  started_in_order start configs w ss w' -> length ss = length configs.
Proof. induction 1; cbn; congruence. Qed.

End ClusterFacts.

(** C5: when the first K-1 configs start and the K-th fails with [e],
    [startCluster] rejects with [e] itself, and what it has done to the
    world besides the starts is to run [stop] on the K-1 started services,
    the last started first, whatever those stops answered. *)
Theorem startCluster_rollback :
  forall (W : Type) (start : ServiceConfig -> Promise W (RunningService W))
         (pre : list ServiceConfig) (failing : ServiceConfig)
         (post : list ServiceConfig) (ss : list (RunningService W))
         (w wK wK' : W) (e : Error),
    started_in_order start pre w ss wK ->
    start failing wK = (Throw e, wK') ->
    startCluster start (pre ++ failing :: post) w
    = (Throw e, stopped_in_turn (rev ss) wK')
    /\ length ss = length pre.
Proof.
  intros W start pre failing post ss w wK wK' e H F. split.
  - unfold startCluster.
    rewrite (start_each_failing start pre failing post [] w ss wK e wK' H F).
    cbn [app]. now rewrite for_of_stop_quietly.
  - eapply started_length; eassumption.
Qed.

Lemma startCluster_rollback_witness :
  let a := plain_config "a" "node" in
  let b := plain_config "b" "stubborn" in
  let c := plain_config "c" "false" in
  let d := plain_config "d" "node" in
  started_in_order journal_start [a; b] []
    [journal_service "a" false; journal_service "b" true] []
  /\ journal_start c [] = (Throw "[c] Not ready", [])
  /\ startCluster journal_start [a; b; c; d] []
     = (Throw "[c] Not ready", ["b"; "a"]).
Proof.
  intros a b c d.
  assert (H : started_in_order journal_start [a; b] []
                [journal_service "a" false; journal_service "b" true] [])
    by (repeat econstructor).
  split; [exact H|]. split; [reflexivity|].
  exact (proj1 (startCluster_rollback (list string) journal_start [a; b] c [d]
                  _ [] [] [] "[c] Not ready" H eq_refl)).
Defined.

(** C7: [stopAll] of a cluster that [startCluster] returned never rejects;
    it runs [stop] on every member, the last started first and one after
    the other, whatever the earlier stops answered. *)
Theorem stopAll_reverse :
  forall (W : Type) (start : ServiceConfig -> Promise W (RunningService W))
         (configs : list ServiceConfig) (w w1 : W) (cluster : ServiceCluster W),
    startCluster start configs w = (Normal cluster, w1) ->
    started_in_order start configs w (services cluster) w1
    /\ forall w2 : W,
         stopAll cluster w2
         = (Normal tt, stopped_in_turn (rev (services cluster)) w2).
Proof.
  intros W start configs w w1 cluster H. unfold startCluster in H.
  destruct (start_each start configs [] w) as [[[[]|e] ss] w'] eqn:E.
  - inversion H; subst. cbn [services stopAll make_cluster].
    destruct (start_each_normal start _ _ _ _ _ E) as (new & -> & run).
    split; [exact run|]. intros w2. apply for_of_stop_quietly.
  - rewrite for_of_stop_quietly in H. discriminate.
Qed.

Lemma stopAll_reverse_witness :
  let configs := [plain_config "a" "node"; plain_config "b" "stubborn";
                  plain_config "c" "node"] in
  let cluster := make_cluster [journal_service "a" false;
                               journal_service "b" true;
                               journal_service "c" false] in
  startCluster journal_start configs [] = (Normal cluster, [])
  /\ stopAll cluster [] = (Normal tt, ["c"; "b"; "a"]).
Proof.
  intros configs cluster.
  assert (H : startCluster journal_start configs [] = (Normal cluster, []))
    by reflexivity.
  split; [exact H|].
  exact (proj2 (stopAll_reverse (list string) journal_start configs [] []
                  cluster H) []).
Defined.

(** ** The host left alone *)

Section HostFacts.
Variable host : Host.

Lemma later_S (n : nat) (w : Sys) :
  later host (S n) w = advance host (later host n w).
Proof. reflexivity. Qed.


Lemma now_later (n : nat) (w : Sys) : now (later host n w) = (n + now w)%nat.
Proof.
  induction n as [|n IH]; [reflexivity|].
  rewrite later_S. cbn [advance now]. now rewrite IH.
Qed.

Lemma fate_later (n : nat) (w : Sys) : fate (later host n w) = fate w.
Proof. induction n as [|n IH]; [reflexivity|]. now rewrite later_S. Qed.

Lemma killed_advance (w : Sys) :
  killed (proc (advance host w)) = killed (proc w).
Proof.
  cbn [advance proc]. destruct (has_exited (proc w)); [reflexivity|].
  destruct (fate w) as [[d [c|s]]|]; [| |reflexivity];
    destruct (d <=? S (now w))%nat; reflexivity.
Qed.

Lemma killed_later (n : nat) (w : Sys) :
  killed (proc (later host n w)) = killed (proc w).
Proof.
  induction n as [|n IH]; [reflexivity|].
  now rewrite later_S, killed_advance.
Qed.

Lemma pid_later (n : nat) (w : Sys) :
  proc_pid (proc (later host n w)) = proc_pid (proc w).
Proof.
  induction n as [|n IH]; [reflexivity|]. rewrite later_S, <- IH.
  cbn [advance proc]. destruct (has_exited (proc (later host n w)));
    [reflexivity|].
  destruct (fate (later host n w)) as [[d [c|s]]|]; [| |reflexivity];
    destruct (d <=? S (now (later host n w)))%nat; reflexivity.
Qed.



Lemma text_exited_advance (w : Sys) :
  has_exited (proc w) = true ->
  getOutput (advance host w) = getOutput w.
Proof. intros H. unfold getOutput. cbn [advance out_text err_text]. now rewrite H. Qed.




(** [kill] leaves the captured output and the clock alone. *)
Lemma kill_output (sig : Signal) (w : Sys) :
  getOutput (snd (kill host sig w)) = getOutput w.
Proof. unfold kill. now destruct (has_exited (proc w)). Qed.

Lemma kill_now (sig : Signal) (w : Sys) : now (snd (kill host sig w)) = now w.
Proof. unfold kill. now destruct (has_exited (proc w)). Qed.

(** After [SIGKILL] the child is not running, whatever it was doing. *)
Lemma sigkill_not_running (w : Sys) :
  running (snd (kill host SIGKILL w)) = false.
Proof.
  unfold kill. destruct (has_exited (proc w)) eqn:E; cbn [snd].
  - unfold running. now rewrite E.
  - unfold running, has_exited in *. cbn [proc fate exitCode signalCode now].
    rewrite E. cbn [negb andb reaction].
    destruct (fate w) as [[d st]|]; cbn [sooner].
    + destruct (Nat.ltb_spec (now w) d) as [lt|ge].
      * apply Nat.ltb_irrefl.
      * apply Nat.ltb_ge. exact ge.
    + apply Nat.ltb_irrefl.
Qed.

End HostFacts.

(** ** waitForReady *)

Lemma timer_delay_pos (ms : Z) : (1 <= timer_delay ms)%nat.
Proof.
  unfold timer_delay.
  destruct (Z.ltb_spec ms 1); cbn [orb]; [lia|].
  destruct (Z.ltb_spec 2147483647 ms); lia.
Qed.

Section WaitFacts.
Variable host : Host.
Variable name : string.
Variable timeoutMs : Z.
Variable how : Strategy.
Variable w0 : Sys.

Local Abbreviation D := (timer_delay timeoutMs).

Lemma on_response_inert (rs : list (nat * FetchResult)) (l : Latch) :
  Forall (fun r => succeeds (snd r) = false) rs ->
  fold_left (fun l r => on_response (snd r) l) rs l = l.
Proof.
  intros H; revert l; induction H as [|r rs Hr _ IH]; intros l;
    [reflexivity|].
  cbn [fold_left]. rewrite <- (IH l) at 2. f_equal.
  unfold on_response. destruct (snd r) as [status|]; [|reflexivity].
  cbn [succeeds] in Hr. now rewrite Hr.
Qed.

Lemma settled_stays_tick (l : Latch) (c : Completion unit) :
  settled l = Some c ->
  settled (on_tick host name how l) = Some c
  /\ sys (on_tick host name how l) = sys l.
Proof.
  intros H. destruct how as [sig|u every]; cbn [on_tick].
  - unfold on_signal_tick, check.
    destruct (Js.includes (getOutput (sys l)) sig);
      cbn [sys clearInterval resolve settle clearTimeout];
      destruct (exitCode (proc (sys l)));
      cbn [settled sys reject resolve settle clearTimeout clearInterval];
      rewrite ?H; auto.
  - unfold on_url_tick.
    destruct (latency (fetch host u (now (sys l))) <? 1000)%nat;
      cbn [request settled sys]; auto.
Qed.

(** What arrives up to the moment of the start timer changes nothing
    while all responses in flight are harmless. *)
Lemma arrivals_waiting (k : nat) (l : Latch) :
  waiting host timeoutMs w0 k l ->
  (S k <= D)%nat ->
  waiting host timeoutMs w0 (S k) (arrivals host l).
Proof.
  intros (Hsys & Hset & Hto & Hint & Hfl) le.
  unfold arrivals.
  set (l0 := set_sys (advance host (sys l)) l).
  assert (E0 : sys l0 = later host (S k) w0)
    by (unfold l0; cbn [set_sys sys]; now rewrite Hsys).
  assert (T : now (sys l0) = (S k + now w0)%nat)
    by (rewrite E0; apply now_later).
  set (t := now (sys l0)) in *.
  set (arrived := List.filter _ (inflight l0)).
  set (rest := List.filter _ (inflight l0)).
  assert (Harr : Forall (fun r => succeeds (snd r) = false) arrived).
  { apply Forall_forall. intros r Hin.
    apply list_elem_of_In, filter_In in Hin as [Hin Hle].
    apply Nat.leb_le in Hle.
    rewrite Forall_forall in Hfl.
    destruct (Hfl r) as [Hr|Hr]; [now apply list_elem_of_In|exact Hr|lia]. }
  rewrite (on_response_inert _ _ Harr).
  assert (Hrest : Forall (harmless (now w0 + D)) rest).
  { apply Forall_forall. intros r Hin.
    apply list_elem_of_In, filter_In in Hin as [Hin _].
    rewrite Forall_forall in Hfl. now apply Hfl, list_elem_of_In. }
  now repeat split.
Qed.

(** One turn of the loop before the start timer is due, with a quiet
    tick: the wait goes on. *)
Lemma turn_quiet (k : nat) (l : Latch) :
  waiting host timeoutMs w0 k l ->
  (S k < D)%nat ->
  ((S k) mod period how = 0 -> quiet_tick host timeoutMs how w0 (S k))%nat ->
  waiting host timeoutMs w0 (S k) (turn host name timeoutMs how (S k) l).
Proof.
  intros W lt quiet. unfold turn.
  destruct (arrivals_waiting k l W) as (E1 & S1 & A1 & I1 & F1); [lia|].
  set (l1 := arrivals host l) in *. clearbody l1.
  unfold timers. rewrite A1. cbn [andb].
  replace (S k =? timer_delay timeoutMs)%nat with false
    by (symmetry; apply Nat.eqb_neq; fold D; lia).
  rewrite I1. cbn [andb].
  destruct (Nat.eqb_spec (S k mod period how) 0) as [tick|no];
    [|now repeat split].
  specialize (quiet tick). unfold quiet_tick in quiet.
  destruct how as [sig|u every]; cbn [on_tick].
  - destruct quiet as [Hno Hcode].
    unfold on_signal_tick, check. rewrite E1, Hno, E1, Hcode.
    now repeat split.
  - unfold on_url_tick. unfold answered_by in quiet.
    rewrite E1, now_later.
    replace (S k + now w0)%nat with (now w0 + S k)%nat by lia.
    set (o := fetch host u (now w0 + S k)) in *.
    destruct (Nat.ltb_spec (latency o) 1000) as [fast|slow];
      (repeat split; cbn [request sys settled timeoutArmed intervalArmed
                            inflight]; auto);
      (apply Forall_app; split; [exact F1|]);
      (apply Forall_cons; split; [|constructor]); [|now left].
    unfold harmless; cbn [fst snd]. cbn [andb] in quiet.
    destruct (succeeds (result o)); [right|now left].
    cbn [andb] in quiet. apply Nat.leb_gt in quiet. lia.
Qed.

(** The turn in which the start timer is due: [SIGKILL] goes out and the
    wait is rejected with the timer's message. *)
Lemma turn_timeout (k : nat) (l : Latch) :
  waiting host timeoutMs w0 k l ->
  S k = D ->
  let l' := turn host name timeoutMs how (S k) l in
  settled l'
  = Some (Throw (timeout_message name timeoutMs
                   (getOutput (later host D w0))))
  /\ sys l' = snd (kill host SIGKILL (later host D w0)).
Proof.
  intros W eq. unfold turn.
  destruct (arrivals_waiting k l W) as (E1 & S1 & A1 & I1 & F1); [lia|].
  set (l1 := arrivals host l) in *. clearbody l1.
  unfold timers. rewrite A1. cbn [andb].
  replace (S k =? timer_delay timeoutMs)%nat with true
    by (symmetry; apply Nat.eqb_eq; exact eq).
  set (l2 := on_timeout host name timeoutMs (clearTimeout l1)).
  assert (S2 : settled l2
               = Some (Throw (timeout_message name timeoutMs
                                (getOutput (later host D w0))))).
  { unfold l2, on_timeout, reject, settle.
    cbn [settled clearTimeout set_sys sys]. rewrite S1, kill_output, E1, eq.
    reflexivity. }
  assert (E2 : sys l2 = snd (kill host SIGKILL (later host D w0))).
  { unfold l2, on_timeout. cbn [reject settle sys set_sys clearTimeout].
    now rewrite E1, eq. }
  cbv zeta.
  destruct (intervalArmed l2 && (S k mod period how =? 0)%nat).
  - destruct (settled_stays_tick l2 _ S2) as [-> ->]. auto.
  - auto.
Qed.

Lemma event_loop_zero (k : nat) (l : Latch) :
  event_loop host name timeoutMs how 0 k l = l.
Proof. cbn [event_loop]. now destruct (settled l). Qed.

Lemma event_loop_done (fuel k : nat) (l : Latch) (c : Completion unit) :
  settled l = Some c -> event_loop host name timeoutMs how fuel k l = l.
Proof. intros H. destruct fuel; cbn [event_loop]; now rewrite H. Qed.

Lemma event_loop_step (fuel k : nat) (l : Latch) :
  settled l = None ->
  event_loop host name timeoutMs how (S fuel) k l
  = event_loop host name timeoutMs how fuel (S k)
      (turn host name timeoutMs how (S k) l).
Proof. intros H. cbn [event_loop]. now rewrite H. Qed.

(** With every tick before the start timer quiet, the wait ends when the
    timer is due and as the timer ends it. *)
Lemma loop_times_out (fuel : nat) :
  forall (k : nat) (l : Latch),
    waiting host timeoutMs w0 k l ->
    (k + S fuel = D)%nat ->
    (forall j, k < j < D -> j mod period how = 0 -> quiet_tick host timeoutMs how w0 j)%nat ->
    let l' := event_loop host name timeoutMs how (S fuel) k l in
    settled l'
    = Some (Throw (timeout_message name timeoutMs
                     (getOutput (later host D w0))))
    /\ sys l' = snd (kill host SIGKILL (later host D w0)).
Proof.
  induction fuel as [|fuel IH]; intros k l W eq quiet;
    pose proof W as (_ & Hset & _).
  - rewrite (event_loop_step _ _ _ Hset), event_loop_zero.
    apply (turn_timeout k l W). lia.
  - rewrite (event_loop_step _ _ _ Hset). apply IH; [|lia|].
    + apply turn_quiet; [exact W|lia|]. intros tick. apply quiet; [lia|exact tick].
    + intros j Hj. apply quiet. lia.
Qed.


(** A tick of the signal strategy that finds no signal but an exit
    code: the wait is rejected with the code and the output. *)
Lemma turn_exit (k : nat) (l : Latch) (sig : string) (code : Z) :
  how = BySignal sig ->
  waiting host timeoutMs w0 k l ->
  (S k < D)%nat ->
  (S k mod 50 = 0)%nat ->
  Js.includes (getOutput (later host (S k) w0)) sig = false ->
  exitCode (proc (later host (S k) w0)) = Some code ->
  let l' := turn host name timeoutMs how (S k) l in
  settled l'
  = Some (Throw (exit_message name code (getOutput (later host (S k) w0))))
  /\ sys l' = later host (S k) w0.
Proof.
  intros Hhow W lt tick miss gone. unfold turn.
  destruct (arrivals_waiting k l W) as (E1 & S1 & A1 & I1 & F1); [lia|].
  set (l1 := arrivals host l) in *. clearbody l1.
  unfold timers. rewrite A1. cbn [andb].
  replace (S k =? timer_delay timeoutMs)%nat with false
    by (symmetry; apply Nat.eqb_neq; fold D; lia).
  rewrite I1, Hhow. cbn [andb period on_tick]. rewrite tick. cbn [Nat.eqb].
  unfold on_signal_tick, check. rewrite E1, miss, E1, gone.
  unfold reject, settle.
  cbn [settled sys clearTimeout clearInterval]. rewrite S1, E1.
  auto.
Qed.


(** The signal strategy with an exit code at the tick [T], no tick up to
    [T] finding the signal and none before [T] an exit code: the wait is
    rejected at [T] with the code. *)
Lemma loop_exit (n : nat) :
  forall (k : nat) (l : Latch) (extra : nat) (sig : string) (T : nat)
         (code : Z),
    how = BySignal sig ->
    waiting host timeoutMs w0 k l ->
    (k + S n = T)%nat -> (T < D)%nat -> (T mod 50 = 0)%nat ->
    (forall m, (k < m <= T)%nat -> (m mod 50 = 0)%nat ->
               Js.includes (getOutput (later host m w0)) sig = false) ->
    (forall m, (k < m < T)%nat -> (m mod 50 = 0)%nat ->
               exitCode (proc (later host m w0)) = None) ->
    exitCode (proc (later host T w0)) = Some code ->
    let l' := event_loop host name timeoutMs how (S n + extra) k l in
    settled l'
    = Some (Throw (exit_message name code (getOutput (later host T w0))))
    /\ sys l' = later host T w0.
Proof.
  induction n as [|n IH];
    intros k l extra sig T code Hhow W eq lt tick miss alive gone;
    pose proof W as (_ & Hset & _); cbv zeta;
    cbn [Nat.add]; rewrite (event_loop_step _ _ _ Hset).
  - assert (E : S k = T) by lia.
    destruct (turn_exit k l sig code Hhow W) as [S' E'];
      try (rewrite E; auto; fail).
    { rewrite E. apply miss; [lia|exact tick]. }
    rewrite (event_loop_done _ _ _ _ S'). rewrite <- E. auto.
  - apply (IH (S k) _ extra sig T code); auto; try lia.
    + apply turn_quiet; [exact W|lia|]. intros tk.
      unfold quiet_tick. rewrite Hhow.
      rewrite Hhow in tk. cbn [period] in tk.
      split; [apply miss; [lia|exact tk]|apply alive; [lia|exact tk]].
    + intros m Hm. apply miss. lia.
    + intros m Hm. apply alive. lia.
Qed.

End WaitFacts.

(** ** startService *)

Lemma waiting_at_start (host : Host) (timeoutMs : Z) (w : Sys) :
  waiting host timeoutMs w 0
    {| sys := w; settled := None; timeoutArmed := true;
       intervalArmed := true; inflight := [] |}.
Proof. repeat split. constructor. Qed.

(** [startService] past the GPU check, by how its wait ended. *)
Lemma startService_by_latch (host : Host) (config : ServiceConfig) :
  requires_gpu config && negb (nvidia_smi host) = false ->
  startService host config
  = let l := waitForReady host (cfg_name config) (ready config)
               (default 15000%Z (startTimeoutMs config)) (spawned host) in
    match settled l with
    | Some (Normal _) => Started (service_of host config 0 (sys l)) (sys l)
    | Some (Throw e) => Failed e (sys l)
    | None => Unsettled (sys l)
    end.
Proof. intros gpu. unfold startService, checkGpu. now rewrite gpu. Qed.

Lemma timeout_message_says (name : string) (timeoutMs : Z) (output : string) :
  Js.includes (timeout_message name timeoutMs output) "Not ready within" = true
  /\ Js.includes (timeout_message name timeoutMs output)
                 ("[" +:+ name +:+ "]") = true
  /\ exists before,
       timeout_message name timeoutMs output
       = before +:+ Js.slice_last 500 output.
Proof.
  unfold timeout_message. split; [|split].
  - found_after ("[" +:+ name +:+ "] ")
      (" " +:+ Js.show timeoutMs +:+ "ms." +:+ nl +:+ "Output: "
       +:+ Js.slice_last 500 output).
  - apply (includes_tag name).
  - exists ("[" +:+ name +:+ "] Not ready within " +:+ Js.show timeoutMs
            +:+ "ms." +:+ nl +:+ "Output: ").
    same_text.
Qed.

(** C3, as amended: with a strategy configured, the GPU requirement (if
    any) met, and nothing ending the wait before the start timer (no tick
    finds the signal or an exit code, no poll is answered with success in
    time), [startService] rejects when the timer is due with "Not ready
    within" and the last 500 characters of the output, having sent
    [SIGKILL]: the child is not running afterwards. *)
Theorem startService_times_out :
  forall (host : Host) (config : ServiceConfig),
    requires_gpu config && negb (nvidia_smi host) = false ->
    stays_unready host config ->
    let timeoutMs := default 15000%Z (startTimeoutMs config) in
    let w := snd (kill host SIGKILL
                    (later host (timer_delay timeoutMs) (spawned host))) in
    let message := timeout_message (cfg_name config) timeoutMs (getOutput w) in
    startService host config = Failed message w
    /\ Js.includes message "Not ready within" = true
    /\ (exists before, message = before +:+ Js.slice_last 500 (getOutput w))
    /\ now w = timer_delay timeoutMs
    /\ running w = false.
Proof.
  intros host config gpu unready timeoutMs w message.
  pose proof (timeout_message_says (cfg_name config) timeoutMs (getOutput w))
    as (says & _ & tail).
  split; [|split; [exact says|split; [exact tail|split]]].
  - unfold startService, checkGpu. rewrite gpu.
    unfold stays_unready in unready. fold timeoutMs in unready |- *.
    fold (spawned host). unfold waitForReady.
    pose proof (timer_delay_pos timeoutMs) as pos.
    set (D := timer_delay timeoutMs) in *.
    assert (out : forall how,
               (forall j, (0 < j < D)%nat -> (j mod period how = 0)%nat ->
                          quiet_tick host timeoutMs how (spawned host) j) ->
               let l := event_loop host (cfg_name config) timeoutMs how D 0
                          {| sys := spawned host; settled := None;
                             timeoutArmed := true; intervalArmed := true;
                             inflight := [] |} in
               match settled l with
               | Some (Normal _) =>
                   Started (service_of host config (now (spawned host)) (sys l))
                           (sys l)
               | Some (Throw e) => Failed e (sys l)
               | None => Unsettled (sys l)
               end = Failed message w).
    { intros how quiet l.
      destruct (loop_times_out host (cfg_name config) timeoutMs how
                  (spawned host) (D - 1) 0 _
                  (waiting_at_start host timeoutMs (spawned host)))
        as [S' E'].
      - change (timer_delay timeoutMs) with D. lia.
      - exact quiet.
      - replace (S (D - 1)) with D in S', E' by lia. fold l in S', E'.
        rewrite S', E'. unfold message, w. fold D.
        now rewrite kill_output. }
    destruct (signal (ready config)) as [[|c s]|];
      destruct (url (ready config)) as [[|c' u]|]; try contradiction;
      apply out; intros j Hj tick; unfold quiet_tick; cbn [period] in tick.
    + cbn [spawned registerProcess spawn now Nat.add].
      apply unready; [lia|exact tick].
    + replace j with (50 * (j / 50))%nat
        by (pose proof (Nat.div_mod_eq j 50); lia).
      apply unready; [|]; pose proof (Nat.div_mod_eq j 50); lia.
    + replace j with (50 * (j / 50))%nat
        by (pose proof (Nat.div_mod_eq j 50); lia).
      apply unready; [|]; pose proof (Nat.div_mod_eq j 50); lia.
    + replace j with (50 * (j / 50))%nat
        by (pose proof (Nat.div_mod_eq j 50); lia).
      apply unready; [|]; pose proof (Nat.div_mod_eq j 50); lia.
    + cbn [spawned registerProcess spawn now Nat.add].
      apply unready; [lia|exact tick].
  - unfold w. now rewrite kill_now, now_later, Nat.add_0_r.
  - apply sigkill_not_running.
Qed.

Lemma startService_times_out_witness :
  let config := config_of (by_signal "Ready on port") (Some 120%Z) in
  requires_gpu config && negb (nvidia_smi silent) = false
  /\ stays_unready silent config
  /\ exists w,
       startService silent config
       = Failed (timeout_message "svc" 120 "") w
       /\ now w = 120%nat
       /\ running w = false.
Proof.
  intros config.
  assert (gpu : requires_gpu config && negb (nvidia_smi silent) = false)
    by reflexivity.
  assert (unready : stays_unready silent config).
  { intros j lo hi. change (50 * j < 120)%nat in hi.
    assert (j = 1 \/ j = 2)%nat as [->| ->] by lia; split; reflexivity. }
  split; [exact gpu|]. split; [exact unready|].
  pose proof (startService_times_out silent config gpu unready)
    as (H & _ & _ & Hnow & Hrun).
  eexists. split; [exact H|]. split; [exact Hnow|exact Hrun].
Defined.

(** Checking a property of every moment up to [n]. *)
Lemma all_up_to (P : nat -> bool) (n : nat) :
  forallb P (seq 0 (S n)) = true -> forall t, (t <= n)%nat -> P t = true.
Proof.
  intros H t le. rewrite forallb_forall in H. apply H.
  apply in_seq. lia.
Qed.

(** C3, as stated, fails: a child that never prints the signal and exits
    with code 7 after 10 ms is reported at the first tick as exited, not
    as "Not ready within". *)
Lemma startService_times_out_counterexample :
  let config := config_of (by_signal "Ready on port") (Some 400%Z) in
  (forall t, (t <= 400)%nat ->
     Js.includes (getOutput (later crashing t (spawned crashing)))
                 "Ready on port" = false)
  /\ exists e w,
       startService crashing config = Failed e w
       /\ e = exit_message "svc" 7 "boom"
       /\ Js.includes e "Not ready within" = false
       /\ now w = 50%nat.
Proof.
  intros config. split.
  - intros t le. apply negb_true_iff.
    apply (all_up_to
             (fun t => negb (Js.includes
                               (getOutput (later crashing t (spawned crashing)))
                               "Ready on port")) 400); [|exact le].
    vm_compute. reflexivity.
  - eexists. eexists. split; [vm_compute; reflexivity|].
    split; [vm_compute; reflexivity|]. split; vm_compute; reflexivity.
Qed.




(** C1, as the code has it: with neither a signal nor a url configured
    (and the GPU requirement, if any, met) [startService] rejects at once
    with the configuration error, but it sends the spawned child no
    signal: the world it leaves is the one right after the spawn, the
    child goes on as it would by itself and stays in the registry. *)
Theorem startService_unconfigured :
  forall (host : Host) (config : ServiceConfig),
    requires_gpu config && negb (nvidia_smi host) = false ->
    Js.truthy (signal (ready config)) = false ->
    Js.truthy (url (ready config)) = false ->
    startService host config
    = Failed ("[" +:+ cfg_name config +:+ "] No ready signal or URL configured")
             (spawned host)
    /\ now (spawned host) = 0%nat
    /\ killed (proc (spawned host)) = false
    /\ fate (spawned host) = halt (program host)
    /\ activeProcesses (spawned host) = {[ child_pid (program host) ]}.
Proof.
  intros host config gpu nosig nourl.
  unfold startService, checkGpu. rewrite gpu. fold (spawned host).
  unfold waitForReady.
  assert (reg : activeProcesses (spawned host)
                = {[ child_pid (program host) ]}).
  { unfold spawned, registerProcess, spawn.
    cbn [activeProcesses proc proc_pid]. apply (right_id_L ∅ (∪)). }
  destruct (signal (ready config)) as [[|c s]|];
    destruct (url (ready config)) as [[|c' u]|];
    cbn [Js.truthy] in nosig, nourl; try congruence;
    (split; [reflexivity|]); repeat split; exact reg.
Qed.

Lemma startService_unconfigured_witness :
  let config := config_of by_nothing None in
  requires_gpu config && negb (nvidia_smi silent) = false
  /\ Js.truthy (signal (ready config)) = false
  /\ Js.truthy (url (ready config)) = false
  /\ startService silent config
     = Failed "[svc] No ready signal or URL configured" (spawned silent)
  /\ running (spawned silent) = true
  /\ killed (proc (spawned silent)) = false
  /\ (forall n, running (later silent n (spawned silent)) = true).
Proof.
  intros config.
  pose proof (startService_unconfigured silent config eq_refl eq_refl eq_refl)
    as (H & _ & Hk & _).
  split; [reflexivity|]. split; [reflexivity|]. split; [reflexivity|].
  split; [exact H|]. split; [reflexivity|]. split; [exact Hk|].
  intros n. unfold running.
  rewrite fate_later. cbn [fate spawned registerProcess spawn silent host_of
                             program child_that halt].
  rewrite andb_true_r. apply negb_true_iff.
  induction n as [|n IH]; [reflexivity|].
  rewrite later_S. cbn [advance proc]. rewrite IH, fate_later. exact IH.
Defined.

(** C2 at a failing input: under the url strategy an exit goes unseen.  The
    child exits with code 7 after 10 ms; [startService] waits out the 600
    ms of the start timer and rejects with "Not ready within", in a
    message that holds neither the exit code nor "Exited with code". *)
Theorem startService_url_misses_exit :
  let config := config_of (by_url "http://localhost:8000/health")
                          (Some 600%Z) in
  exists e w,
    startService crashing config = Failed e w
    /\ e = timeout_message "svc" 600 "boom"
    /\ Js.includes e "Exited with code" = false
    /\ Js.includes e "7" = false
    /\ exitCode (proc (later crashing 10 (spawned crashing))) = Some 7%Z
    /\ now w = 600%nat.
Proof.
  intros config. eexists. eexists.
  split; [vm_compute; reflexivity|].
  repeat split; vm_compute; reflexivity.
Qed.

(** C6 at a failing input: a server that was ready and has since been
    ended by a segmentation fault has no exit code (Node records the
    signal instead) and was not signalled through its handle, so [stop()]
    does not return at once: it resolves, without error, when the 5000 ms
    of [stopTimeoutMs] have passed.  [isAlive()] still answers true. *)
Theorem stop_waits_for_crashed_child :
  let config := config_of (by_signal "Ready on port") None in
  match startService faulting config with
  | Started service w =>
      let w1 := later faulting 60 w in
      now w = 50%nat
      /\ running w1 = false
      /\ proc w1 = {| proc_pid := 4321; killed := false; exitCode := None;
                      signalCode := Some SIGSEGV |}
      /\ isAlive service w1 = true
      /\ fst (stop service w1) = Normal tt
      /\ now (snd (stop service w1)) = (now w1 + 5000)%nat
  | _ => False
  end.
Proof. vm_compute. repeat split; reflexivity. Qed.

(** ** isHealthy *)

(** C8: [isHealthy()] of a service never rejects; without a health url it
    answers what [isAlive()] answers and leaves the world alone; with one
    it answers true exactly when the request, bounded by two seconds,
    comes back with a status from 200 to 299. *)
Theorem isHealthy_reports :
  forall (host : Host) (config : ServiceConfig) (startedAt : nat)
         (w0 w : Sys),
    let service := service_of host config startedAt w0 in
    (exists healthy w', isHealthy service w = (Normal healthy, w'))
    /\ (health config = None \/ health config = Some {| health_url := "" |} ->
        isHealthy service w = (Normal (isAlive service w), w))
    /\ (forall u, health config = Some {| health_url := u |} -> u <> "" ->
        let o := fetch host u (now w) in
        fst (isHealthy service w) = Normal true
        <-> (latency o < 2000)%nat
            /\ exists status, result o = Response status
                              /\ (200 <= status <= 299)%Z).
Proof.
  intros host config startedAt w0 w service.
  cbn [isHealthy isAlive service service_of]. unfold isHealthy_of.
  split; [|split].
  - destruct (health config) as [[[|c u]]|]; [eauto| |eauto].
    destruct (latency (fetch host (String c u) (now w)) <? 2000)%nat; eauto.
  - intros [-> | ->]; reflexivity.
  - intros u -> ne. destruct u as [|c u]; [now elim ne|].
    set (o := fetch host (String c u) (now w)).
    destruct (Nat.ltb_spec (latency o) 2000) as [fast|slow]; cbn [fst].
    + destruct (result o) as [status|].
      * unfold ok. split.
        -- intros H. split; [exact fast|]. exists status. split; [reflexivity|].
           injection H as H. apply andb_true_iff in H as [lo hi].
           apply Z.leb_le in lo, hi. lia.
        -- intros (_ & status' & E & lo & hi). injection E as <-.
           f_equal. apply andb_true_iff. split; apply Z.leb_le; lia.
      * split; [discriminate|]. intros (_ & status & E & _). discriminate.
    + split; [discriminate|]. intros (H & _). lia.
Qed.

(** ** The wait always ends *)

Section LoopFacts.
Variable host : Host.
Variable name : string.
Variable timeoutMs : Z.
Variable how : Strategy.

Lemma sys_settle (c : Completion unit) (l : Latch) : sys (settle c l) = sys l.
Proof. reflexivity. Qed.

Lemma on_response_sys (r : FetchResult) (l : Latch) :
  sys (on_response r l) = sys l.
Proof. destruct r as [status|]; cbn; [destruct (ok status)|]; reflexivity. Qed.

Lemma responses_sys (rs : list (nat * FetchResult)) (l : Latch) :
  sys (fold_left (fun l r => on_response (snd r) l) rs l) = sys l.
Proof.
  revert l; induction rs as [|r rs IH]; intros l; [reflexivity|].
  cbn [fold_left]. now rewrite IH, on_response_sys.
Qed.

Lemma arrivals_sys (l : Latch) : sys (arrivals host l) = advance host (sys l).
Proof. unfold arrivals. now rewrite responses_sys. Qed.

Lemma on_tick_sys (l : Latch) : sys (on_tick host name how l) = sys l.
Proof.
  destruct how as [sig|u every]; cbn [on_tick].
  - unfold on_signal_tick, check.
    destruct (Js.includes (getOutput (sys l)) sig); cbv zeta;
      match goal with |- context [exitCode ?p] => destruct (exitCode p) end;
      reflexivity.
  - unfold on_url_tick.
    destruct (latency (fetch host u (now (sys l))) <? 1000)%nat; reflexivity.
Qed.

(** The timers leave the world alone or send [SIGKILL]. *)
Lemma timers_sys (k : nat) (l : Latch) :
  sys (timers host name timeoutMs how k l) = sys l
  \/ sys (timers host name timeoutMs how k l) = snd (kill host SIGKILL (sys l)).
Proof.
  unfold timers.
  destruct (timeoutArmed l && (k =? timer_delay timeoutMs)%nat);
    match goal with
    | |- context [if ?c then _ else _] => destruct c
    end; rewrite ?on_tick_sys; auto.
Qed.

Lemma guards_on_response (r : FetchResult) (l : Latch) :
  timer_guards l -> timer_guards (on_response r l).
Proof.
  unfold timer_guards. destruct r as [status|]; cbn [on_response]; auto.
  destruct (ok status); auto.
  unfold resolve, settle; cbn. destruct (settled l); discriminate.
Qed.

Lemma guards_arrivals (l : Latch) :
  timer_guards l -> timer_guards (arrivals host l).
Proof.
  intros G. unfold arrivals.
  set (l0 := set_inflight _ _).
  assert (G0 : timer_guards l0) by exact G. clearbody l0.
  set (rs := List.filter _ _). clearbody rs.
  revert l0 G0; induction rs as [|r rs IH]; intros l0 G0; [exact G0|].
  cbn [fold_left]. apply IH, guards_on_response, G0.
Qed.

Lemma guards_on_tick (l : Latch) :
  timer_guards l -> timer_guards (on_tick host name how l).
Proof.
  unfold timer_guards. intros G.
  destruct how as [sig|u every]; cbn [on_tick].
  - unfold on_signal_tick, check.
    destruct (Js.includes (getOutput (sys l)) sig); cbv zeta;
      match goal with |- context [exitCode ?p] => destruct (exitCode p) end;
      unfold resolve, reject, settle; cbn; auto;
      destruct (settled l); auto; discriminate.
  - unfold on_url_tick.
    destruct (latency (fetch host u (now (sys l))) <? 1000)%nat; exact G.
Qed.

Lemma settled_on_tick (l : Latch) :
  settled l <> None -> settled (on_tick host name how l) <> None.
Proof.
  intros H. destruct (settled l) as [c|] eqn:E; [|now elim H].
  now rewrite (proj1 (settled_stays_tick host name how l c E)).
Qed.

Lemma guards_timers (k : nat) (l : Latch) :
  timer_guards l -> timer_guards (timers host name timeoutMs how k l).
Proof.
  intros G. unfold timers.
  set (l1 := if timeoutArmed l && (k =? timer_delay timeoutMs)%nat
             then on_timeout host name timeoutMs (clearTimeout l) else l).
  assert (G1 : timer_guards l1).
  { unfold l1. destruct (timeoutArmed l && _); [|exact G].
    unfold timer_guards, on_timeout, reject, settle; cbn.
    destruct (settled l); discriminate. }
  clearbody l1. destruct (intervalArmed l1 && _); [|exact G1].
  apply guards_on_tick, G1.
Qed.

(** The start timer settles what is still pending when it is due. *)
Lemma timers_settle (l : Latch) :
  timer_guards l ->
  settled (timers host name timeoutMs how (timer_delay timeoutMs) l) <> None.
Proof.
  intros G. unfold timers. rewrite Nat.eqb_refl, andb_true_r.
  set (l1 := if timeoutArmed l
             then on_timeout host name timeoutMs (clearTimeout l) else l).
  assert (S1 : settled l1 <> None).
  { unfold l1. destruct (timeoutArmed l) eqn:A.
    - unfold on_timeout, reject, settle; cbn. destruct (settled l); discriminate.
    - intros E. apply G in E. congruence. }
  clearbody l1. destruct (intervalArmed l1 && _); [|exact S1].
  apply settled_on_tick, S1.
Qed.

(** Whatever the child and the network do, the loop ends with the promise
    settled, and on the way the clock moves by one a turn. *)
Lemma loop_settles (fuel : nat) :
  forall (k : nat) (l : Latch),
    timer_guards l ->
    (k + fuel = timer_delay timeoutMs)%nat ->
    (1 <= fuel)%nat \/ settled l <> None ->
    settled (event_loop host name timeoutMs how fuel k l) <> None.
Proof.
  induction fuel as [|fuel IH]; intros k l G eq ok.
  - rewrite event_loop_zero. destruct ok as [ok|ok]; [lia|exact ok].
  - destruct (settled l) as [c|] eqn:E.
    + rewrite (event_loop_done _ _ _ _ _ _ _ c E). congruence.
    + rewrite (event_loop_step _ _ _ _ _ _ _ E).
      apply IH; [apply guards_timers, guards_arrivals, G|lia|].
      destruct fuel as [|fuel]; [right|left; lia].
      unfold turn. replace (S k) with (timer_delay timeoutMs) by lia.
      apply timers_settle, guards_arrivals, G.
Qed.

Lemma now_turn (k : nat) (l : Latch) :
  now (sys (turn host name timeoutMs how k l)) = S (now (sys l)).
Proof.
  unfold turn.
  destruct (timers_sys k (arrivals host l)) as [-> | ->];
    rewrite ?kill_now, arrivals_sys; reflexivity.
Qed.

Lemma loop_clock (fuel : nat) :
  forall (k : nat) (l : Latch),
    (now (sys l) <= now (sys (event_loop host name timeoutMs how fuel k l))
     <= now (sys l) + fuel)%nat.
Proof.
  induction fuel as [|fuel IH]; intros k l.
  - rewrite event_loop_zero. lia.
  - destruct (settled l) as [c|] eqn:E.
    + rewrite (event_loop_done _ _ _ _ _ _ _ c E). lia.
    + rewrite (event_loop_step _ _ _ _ _ _ _ E).
      specialize (IH (S k) (turn host name timeoutMs how (S k) l)).
      rewrite now_turn in IH. lia.
Qed.

End LoopFacts.

(** ** startService, whatever the child does *)

Lemma waitForReady_settles (host : Host) (name : string) (r : Ready)
    (timeoutMs : Z) (w : Sys) :
  let l := waitForReady host name r timeoutMs w in
  settled l <> None
  /\ (now w <= now (sys l) <= now w + timer_delay timeoutMs)%nat.
Proof.
  pose proof (timer_delay_pos timeoutMs) as pos.
  assert (loop : forall how,
             let l := event_loop host name timeoutMs how
                        (timer_delay timeoutMs) 0
                        {| sys := w; settled := None; timeoutArmed := true;
                           intervalArmed := true; inflight := [] |} in
             settled l <> None
             /\ (now w <= now (sys l) <= now w + timer_delay timeoutMs)%nat).
  { intros how l. split.
    - apply loop_settles; [intros _; reflexivity|lia|left; exact pos].
    - apply (loop_clock host name timeoutMs how (timer_delay timeoutMs) 0
               {| sys := w; settled := None; timeoutArmed := true;
                  intervalArmed := true; inflight := [] |}). }
  unfold waitForReady.
  destruct (signal r) as [[|c s]|]; destruct (url r) as [[|c' u]|];
    try apply loop; cbn; (split; [discriminate|lia]).
Qed.

(** X1: [startService] always settles, and no later than the start timer:
    it is refused for want of a GPU before anything is spawned, or it
    rejects or resolves within [startTimeoutMs] of the spawn; the
    [startupMs] of the service is the time that took. *)
Theorem startService_settles :
  forall (host : Host) (config : ServiceConfig),
    let limit := timer_delay (default 15000%Z (startTimeoutMs config)) in
    (exists e, startService host config = Refused e
               /\ requires_gpu config = true /\ nvidia_smi host = false)
    \/ (exists e w, startService host config = Failed e w
                    /\ (now w <= limit)%nat)
    \/ (exists service w, startService host config = Started service w
                          /\ (now w <= limit)%nat
                          /\ startupMs service = Z.of_nat (now w)
                          /\ name service = cfg_name config).
Proof.
  intros host config limit. unfold startService, checkGpu.
  destruct (requires_gpu config && negb (nvidia_smi host)) eqn:gpu.
  - left. eexists. split; [reflexivity|].
    apply andb_true_iff in gpu as [-> gpu]. now apply negb_true_iff in gpu.
  - right. fold (spawned host).
    destruct (waitForReady_settles host (cfg_name config) (ready config)
                (default 15000%Z (startTimeoutMs config)) (spawned host))
      as [S' T'].
    cbv zeta in S', T'. change (now (spawned host)) with 0%nat in T'.
    destruct (settled _) as [[[]|e]|]; [right|left|now elim S'].
    + eexists. eexists. split; [reflexivity|]. split; [unfold limit; lia|].
      split; [|reflexivity]. cbn [startupMs service_of]. f_equal.
      change (now (spawned host)) with 0%nat. lia.
    + eexists. eexists. split; [reflexivity|]. unfold limit; lia.
Qed.

Lemma exit_message_says (name : string) (code : Z) (output : string) :
  Js.includes (exit_message name code output) ("[" +:+ name +:+ "]") = true
  /\ Js.includes (exit_message name code output)
                 ("Exited with code " +:+ Js.show code) = true
  /\ exists before,
       exit_message name code output = before +:+ Js.slice_last 500 output.
Proof.
  unfold exit_message. split; [|split].
  - apply (includes_tag name).
  - found_after ("[" +:+ name +:+ "] ")
      (" before ready." +:+ nl +:+ "Output: " +:+ Js.slice_last 500 output).
  - exists ("[" +:+ name +:+ "] Exited with code " +:+ Js.show code
            +:+ " before ready." +:+ nl +:+ "Output: ").
    same_text.
Qed.

(** X2: under the signal strategy an exit with a code is reported.  If the
    [j]-th tick of the 50 ms interval comes before the start timer and is
    the first to find an exit code on the handle, and no tick up to it
    finds the signal, [startService] rejects at that tick, the child left
    as it is, with a message that holds the name tag, "Exited with code"
    with the code, and the last 500 characters of the output. *)
Theorem startService_reports_exit :
  forall (host : Host) (config : ServiceConfig) (sig : string) (code : Z)
         (j : nat),
    requires_gpu config && negb (nvidia_smi host) = false ->
    signal (ready config) = Some sig ->
    sig <> "" ->
    (1 <= j)%nat ->
    (50 * j < timer_delay (default 15000%Z (startTimeoutMs config)))%nat ->
    (forall i, (1 <= i <= j)%nat ->
       Js.includes (getOutput (later host (50 * i) (spawned host))) sig
       = false) ->
    (forall i, (1 <= i < j)%nat ->
       exitCode (proc (later host (50 * i) (spawned host))) = None) ->
    exitCode (proc (later host (50 * j) (spawned host))) = Some code ->
    let w := later host (50 * j) (spawned host) in
    let message := exit_message (cfg_name config) code (getOutput w) in
    startService host config = Failed message w
    /\ Js.includes message ("[" +:+ cfg_name config +:+ "]") = true
    /\ Js.includes message ("Exited with code " +:+ Js.show code) = true
    /\ exists before, message = before +:+ Js.slice_last 500 (getOutput w).
Proof.
  intros host config sig code j gpu Hsig Hne lo hi miss alive gone w message.
  pose proof (exit_message_says (cfg_name config) code (getOutput w))
    as (tag & says & tail).
  split; [|split; [exact tag|split; [exact says|exact tail]]].
  unfold startService, checkGpu. rewrite gpu. fold (spawned host).
  unfold waitForReady. rewrite Hsig.
  destruct sig as [|c s]; [now elim Hne|].
  set (timeoutMs := default 15000%Z (startTimeoutMs config)) in *.
  set (D := timer_delay timeoutMs) in *.
  set (T := (50 * j)%nat) in *.
  assert (tick : (T mod 50 = 0)%nat)
    by (unfold T; rewrite Nat.mul_comm; apply Nat.Div0.mod_mul).
  assert (multiple : forall m, (m mod 50 = 0)%nat -> m = (50 * (m / 50))%nat)
    by (intros m Hm; pose proof (Nat.div_mod_eq m 50); lia).
  destruct (loop_exit host (cfg_name config) timeoutMs (BySignal (String c s))
              (spawned host) (T - 1) 0 _ (D - T) (String c s) T code eq_refl
              (waiting_at_start host timeoutMs (spawned host)))
    as [S' E']; try assumption; try (unfold T; lia).
  - intros m Hm tk. rewrite (multiple m tk). apply miss.
    pose proof (Nat.div_mod_eq m 50). unfold T in Hm. lia.
  - intros m Hm tk. rewrite (multiple m tk). apply alive.
    pose proof (Nat.div_mod_eq m 50). unfold T in Hm. lia.
  - replace (S (T - 1) + (D - T))%nat with D in S', E' by (unfold T in *; lia).
    rewrite S', E'. reflexivity.
Qed.

Lemma startService_reports_exit_witness :
  let config := config_of (by_signal "Ready on port") (Some 2000%Z) in
  requires_gpu config && negb (nvidia_smi crashing) = false
  /\ exitCode (proc (later crashing 50 (spawned crashing))) = Some 7%Z
  /\ startService crashing config
     = Failed (exit_message "svc" 7 "boom") (later crashing 50 (spawned crashing)).
Proof.
  intros config.
  assert (gone : exitCode (proc (later crashing (50 * 1) (spawned crashing)))
                 = Some 7%Z) by reflexivity.
  split; [reflexivity|]. split; [exact gone|].
  refine (proj1 (startService_reports_exit crashing config "Ready on port" 7 1
                   eq_refl eq_refl _ (le_n 1) _ _ _ gone)).
  - discriminate.
  - vm_compute; lia.
  - intros i Hi. assert (i = 1)%nat as -> by lia. reflexivity.
  - intros i Hi. lia.
Defined.


(** ** The registry and killAll *)

Section RegistryFacts.
Import Registry.

Lemma elem_set_add (h h' : nat) (s : list nat) :
  h' ∈ set_add h s <-> h' = h \/ h' ∈ s.
Proof.
  unfold set_add. destruct (bool_decide (h ∈ s)) eqn:E.
  - apply bool_decide_eq_true in E. split; [auto|]. now intros [-> |H].
  - rewrite elem_of_app, list_elem_of_singleton. tauto.
Qed.

Lemma elem_set_delete (h h' : nat) (s : list nat) :
  h' ∈ set_delete h s <-> h' <> h /\ h' ∈ s.
Proof.
  unfold set_delete. rewrite !list_elem_of_In, filter_In.
  rewrite negb_true_iff, Nat.eqb_neq. tauto.
Qed.

Lemma unreported_insert (w : World) (h h' : nat) (p q : ChildProcess)
    (cs : list ChildProcess) :
  children w !! h = Some p ->
  has_exited q = false ->
  (exists p', children w !! h' = Some p' /\ has_exited p' = false) ->
  exists p', <[ h := q ]> (children w) !! h' = Some p'
             /\ has_exited p' = false.
Proof.
  intros Hp Hq (p' & Hp' & E').
  destruct (decide (h = h')) as [<- |ne].
  - exists q. split; [|exact Hq].
    apply list_lookup_insert_eq. now apply lookup_lt_Some in Hp.
  - exists p'. split; [|exact E']. now rewrite list_lookup_insert_ne.
Qed.

(** What [kill] changes: the flag of its handle and, for [SIGKILL], the
    life of its child. *)
Lemma kill_facts (h : nat) (sig : Signal) (w : World) :
  let w' := snd (kill h sig w) in
  length (children w') = length (children w)
  /\ listening w' = listening w
  /\ activeProcesses w' = activeProcesses w
  /\ (forall h', h' ∈ alive w' -> h' ∈ alive w)
  /\ (forall h', unreported w h' -> unreported w' h')
  /\ (forall h' p, children w !! h' = Some p -> killed p = true ->
        exists p', children w' !! h' = Some p' /\ killed p' = true)
  /\ (sig = SIGKILL -> unreported w h ->
      (h ∉ alive w')
      /\ exists p', children w' !! h = Some p' /\ killed p' = true).
Proof.
  unfold kill. destruct (children w !! h) as [p|] eqn:Hp; cbn [snd].
  - destruct (has_exited p) eqn:E; cbn [snd].
    + split; [reflexivity|]. split; [reflexivity|]. split; [reflexivity|].
      split; [auto|]. split; [auto|]. split; [eauto|].
      intros _ (p' & Hp' & E'). congruence.
    + cbn [children alive listening activeProcesses].
      split; [apply length_insert|]. split; [reflexivity|].
      split; [reflexivity|]. split; [|split; [|split]].
      * intros h'. destruct sig; auto.
        intros H'. now apply elem_of_difference in H' as [H' _].
      * intros h' U. unfold unreported. cbn [children].
        apply (unreported_insert w h h' p _ (children w) Hp); [|exact U].
        unfold has_exited in *. exact E.
      * intros h' q Hq Kq. cbn [children].
        destruct (decide (h = h')) as [<- |ne].
        -- eexists.
           split; [apply list_lookup_insert_eq;
                   now apply lookup_lt_Some in Hp|reflexivity].
        -- exists q. split; [|exact Kq]. now rewrite list_lookup_insert_ne.
      * intros -> _. split.
        -- intros H'. apply elem_of_difference in H' as [_ H'].
           apply H'. now apply elem_of_singleton.
        -- cbn [children]. eexists.
           split; [apply list_lookup_insert_eq;
                   now apply lookup_lt_Some in Hp|reflexivity].
  - split; [reflexivity|]. split; [reflexivity|]. split; [reflexivity|].
    split; [auto|]. split; [auto|]. split; [eauto|].
    intros _ (p' & Hp' & _). congruence.
Qed.

(** The loop of [killAll] over handles that have reported no exit: none of
    their children lives on, each handle is marked killed, nothing else
    changes. *)
Lemma sweep_facts (hs : list nat) :
  forall w : World,
    (forall h, h ∈ hs -> unreported w h) ->
    let w' := fold_left (fun w h => snd (kill h SIGKILL w)) hs w in
    length (children w') = length (children w)
    /\ listening w' = listening w
    /\ (forall h, h ∈ alive w' -> h ∈ alive w /\ h ∉ hs)
    /\ (forall h, unreported w h -> unreported w' h)
    /\ (forall h p, children w !! h = Some p -> killed p = true ->
          exists p', children w' !! h = Some p' /\ killed p' = true)
    /\ (forall h, h ∈ hs ->
          exists p', children w' !! h = Some p' /\ killed p' = true).
Proof.
  induction hs as [|h0 hs IH]; intros w U; cbn [fold_left].
  - split; [reflexivity|]. split; [reflexivity|].
    split; [intros h H; split; [exact H|apply not_elem_of_nil]|].
    split; [auto|]. split; [eauto|].
    intros h H. now apply not_elem_of_nil in H.
  - pose proof (kill_facts h0 SIGKILL w) as (L1 & Li1 & _ & A1 & U1 & K1 & D1).
    cbv zeta in *.
    set (w1 := snd (kill h0 SIGKILL w)) in *.
    destruct (IH w1) as (L2 & Li2 & A2 & U2 & K2 & M2).
    { intros h Hh. apply U1. apply U. now right. }
    destruct (D1 eq_refl (U h0 ltac:(now left))) as (dead & p0 & Hp0 & Kp0).
    split; [congruence|]. split; [congruence|]. split; [|split; [|split]].
    + intros h Hh. destruct (A2 h Hh) as [Ha Hn]. split; [now apply A1|].
      intros Hc. apply elem_of_cons in Hc as [-> |Hin]; [|now apply Hn].
      now apply dead.
    + intros h Hh. now apply U2, U1.
    + intros h p Hp Kp. destruct (K1 h p Hp Kp) as (p' & Hp' & Kp').
      now apply (K2 h p').
    + intros h Hc. apply elem_of_cons in Hc as [-> |Hin]; [|now apply M2].
      now apply (K2 h0 p0).
Qed.

Lemma tracking_step (w : World) (ev : Event) :
  tracking w -> tracking (step w ev).
Proof.
  intros (T1 & T2 & T3). destruct ev as [pid|h sig|h st|]; cbn [step].
  - unfold spawn, registerProcess, tracking;
      cbn [children alive listening activeProcesses].
    split; [|split].
    + intros h Hh. apply elem_set_add.
      apply elem_of_union in Hh as [Hh|Hh]; [left; set_solver|right; auto].
    + intros h Hh. apply elem_set_add in Hh as [-> |Hh]; unfold unreported;
        cbn [children].
      * eexists.
        split; [rewrite lookup_app_r by lia; now rewrite Nat.sub_diag|].
        reflexivity.
      * destruct (T2 h Hh) as (p & Hp & E). exists p. split; [|exact E].
        rewrite lookup_app_l; [exact Hp|]. now apply lookup_lt_Some in Hp.
    + intros h Hh. rewrite length_app in Hh. cbn [length] in Hh.
      destruct (decide (h = length (children w))) as [-> |ne];
        [set_solver|]. apply elem_of_union_r, T3. lia.
  - pose proof (kill_facts h sig w) as (L & Li & Ac & A & U & _).
    cbv zeta in *. unfold tracking. rewrite L, Li, Ac.
    split; [intros h' Hh'; now apply T1, A|].
    split; [intros h' Hh'; now apply U, T2|exact T3].
  - unfold emit_exit. destruct (children w !! h) as [p|] eqn:Hp;
      [|now repeat split].
    destruct (has_exited p) eqn:E; [now repeat split|].
    assert (Hl : h ∈ listening w) by (apply T3; now apply lookup_lt_Some in Hp).
    rewrite bool_decide_eq_true_2 by exact Hl.
    unfold tracking; cbn [children alive listening activeProcesses].
    split; [|split].
    + intros h' Hh'. apply elem_set_delete.
      apply elem_of_difference in Hh' as [Ha Hn].
      split; [set_solver|now apply T1].
    + intros h' Hh'. apply elem_set_delete in Hh' as [ne Hin].
      destruct (T2 h' Hin) as (p' & Hp' & E'). exists p'.
      cbn [children]. split; [|exact E']. now rewrite list_lookup_insert_ne.
    + intros h' Hh'. rewrite length_insert in Hh'. now apply T3.
  - unfold killAll.
    pose proof (sweep_facts (activeProcesses w) w T2) as (L & Li & A & _).
    cbv zeta in *. unfold tracking; cbn [children alive listening activeProcesses].
    split; [|split].
    + intros h Hh. destruct (A h Hh) as [Ha Hn]. now elim Hn; apply T1.
    + intros h Hh. now apply not_elem_of_nil in Hh.
    + rewrite L, Li. exact T3.
Qed.

Lemma tracking_run (evs : list Event) : tracking (run evs).
Proof.
  unfold run.
  assert (G : forall w, tracking w -> tracking (fold_left step evs w)).
  { induction evs as [|ev evs IH]; intros w T; [exact T|].
    cbn [fold_left]. apply IH, tracking_step, T. }
  apply G. repeat split.
  - intros h H. now apply not_elem_of_empty in H.
  - intros h H. now apply not_elem_of_nil in H.
  - intros h H. cbn in H. lia.
Qed.

End RegistryFacts.

(** X3: whatever children are spawned, signalled and ended, and whenever
    [killAll] has swept in between, every child that is a live process is
    in [activeProcesses], and whatever is in [activeProcesses] is a handle
    that has reported no exit. *)
Theorem registry_tracks :
  forall (evs : list Registry.Event) (h : nat),
    let w := Registry.run evs in
    (h ∈ Registry.alive w -> h ∈ Registry.activeProcesses w)
    /\ (h ∈ Registry.activeProcesses w ->
        exists p, Registry.children w !! h = Some p
                  /\ has_exited p = false).
Proof.
  intros evs h w. destruct (tracking_run evs) as (T1 & T2 & _).
  split; [apply T1|apply T2].
Qed.

(** X4: [killAll] leaves no child alive, however many are registered and
    whatever went before, earlier sweeps included: every handle that was
    in [activeProcesses] has been signalled, the Set is empty, and no
    handle is made or lost. *)
Theorem killAll_sweeps :
  forall (evs : list Registry.Event),
    let w := Registry.run evs in
    let w' := Registry.killAll w in
    Registry.alive w' = ∅
    /\ Registry.activeProcesses w' = []
    /\ (forall h, h ∈ Registry.activeProcesses w ->
          exists p, Registry.children w' !! h = Some p /\ killed p = true)
    /\ length (Registry.children w') = length (Registry.children w).
Proof.
  intros evs w w'. destruct (tracking_run evs) as (T1 & T2 & _).
  pose proof (sweep_facts (Registry.activeProcesses w) w T2)
    as (L & _ & A & _ & _ & M).
  cbv zeta in *. unfold w', Registry.killAll.
  cbn [Registry.alive Registry.activeProcesses Registry.children].
  split; [|split; [reflexivity|split; [exact M|exact L]]].
  apply leibniz_equiv. apply elem_of_equiv_empty. intros h Hh.
  destruct (A h Hh) as [Ha Hn]. now apply Hn, T1.
Qed.

(** ** stopProcess *)

Section StopFacts.
Variable host : Host.

Lemma kill_sets_killed (sig : Signal) (w : Sys) :
  has_exited (proc w) = false ->
  killed (proc (snd (kill host sig w))) = true.
Proof. intros E. unfold kill. now rewrite E. Qed.

Lemma kill_keeps_killed (sig : Signal) (w : Sys) :
  killed (proc w) = true -> killed (proc (snd (kill host sig w))) = true.
Proof. intros K. unfold kill. now destruct (has_exited (proc w)). Qed.

Lemma await_exit_not_running (left : nat) :
  forall w, running (await_exit host left w) = false.
Proof.
  induction left as [|left IH]; intros w; cbn [await_exit].
  - apply sigkill_not_running.
  - destruct (has_exited (proc w)) eqn:E; cbn [negb andb]; [apply IH|].
    destruct (has_exited (proc (advance host w))) eqn:E'; [|apply IH].
    unfold running. now rewrite E'.
Qed.

Lemma await_exit_now (left : nat) :
  forall w, (now w <= now (await_exit host left w) <= now w + left)%nat.
Proof.
  induction left as [|left IH]; intros w; cbn [await_exit].
  - rewrite kill_now. lia.
  - pose proof (IH (advance host w)) as H. cbn [advance now] in H.
    destruct (negb (has_exited (proc w)) && has_exited (proc (advance host w)));
      [cbn [advance now]|]; lia.
Qed.

Lemma await_exit_killed (left : nat) :
  forall w, killed (proc w) = true ->
            killed (proc (await_exit host left w)) = true.
Proof.
  induction left as [|left IH]; intros w K; cbn [await_exit].
  - now apply kill_keeps_killed.
  - destruct (negb (has_exited (proc w)) && has_exited (proc (advance host w)));
      [|apply IH]; now rewrite killed_advance.
Qed.

Lemma exit_code_exited (p : ChildProcess) :
  bool_decide (is_Some (exitCode p)) = true -> has_exited p = true.
Proof. intros H. unfold has_exited. now rewrite H. Qed.

(** X5: on a child that was not signalled through its handle before,
    [stopProcess] resolves, within [stopTimeoutMs], and leaves no child
    running. *)
Theorem stopProcess_leaves_no_child :
  forall (name : string) (timeoutMs : Z) (w : Sys),
    killed (proc w) = false ->
    let r := stopProcess host name timeoutMs w in
    fst r = Normal tt
    /\ running (snd r) = false
    /\ (now w <= now (snd r) <= now w + timer_delay timeoutMs)%nat.
Proof.
  intros name timeoutMs w K. unfold stopProcess. rewrite K. cbn [orb].
  destruct (bool_decide (is_Some (exitCode (proc w)))) eqn:E; cbn [fst snd].
  - split; [reflexivity|]. split; [|lia].
    unfold running. now rewrite (exit_code_exited _ E).
  - split; [reflexivity|]. split; [apply await_exit_not_running|].
    pose proof (await_exit_now (timer_delay timeoutMs)
                  (snd (kill host SIGTERM w))) as H.
    now rewrite kill_now in H.
Qed.

(** X6: [stop()] is idempotent on every child that no signal had ended
    before the first call: the second call returns at once, changing
    nothing, and [isAlive()] is false after the first. *)
Theorem stopProcess_again_at_once :
  forall (name : string) (timeoutMs : Z) (w : Sys),
    signalCode (proc w) = None ->
    let w1 := snd (stopProcess host name timeoutMs w) in
    stopProcess host name timeoutMs w1 = (Normal tt, w1)
    /\ isAlive_of w1 = false.
Proof.
  intros name timeoutMs w S w1.
  assert (G : killed (proc w1)
              || bool_decide (is_Some (exitCode (proc w1))) = true).
  { unfold w1, stopProcess.
    destruct (killed (proc w) || bool_decide (is_Some (exitCode (proc w))))
      eqn:G; [exact G|].
    cbn [snd]. apply orb_false_iff in G as [_ G].
    rewrite await_exit_killed; [reflexivity|].
    apply kill_sets_killed. unfold has_exited. rewrite G, S. reflexivity. }
  split.
  - unfold stopProcess at 1. now rewrite G.
  - unfold isAlive_of. apply orb_true_iff in G as [-> | ->]; [reflexivity|].
    apply andb_false_r.
Qed.

End StopFacts.

Lemma stopProcess_leaves_no_child_witness :
  killed (proc (later prompt 80 (spawned prompt))) = false
  /\ running (later prompt 80 (spawned prompt)) = true
  /\ running (snd (stopProcess prompt "svc" 5000
                     (later prompt 80 (spawned prompt)))) = false.
Proof.
  split; [reflexivity|]. split; [reflexivity|].
  exact (proj1 (proj2 (stopProcess_leaves_no_child prompt "svc" 5000
                         (later prompt 80 (spawned prompt)) eq_refl))).
Defined.

Lemma stopProcess_again_at_once_witness :
  let w := later prompt 80 (spawned prompt) in
  let w1 := snd (stopProcess prompt "svc" 5000 w) in
  signalCode (proc w) = None
  /\ stopProcess prompt "svc" 5000 w1 = (Normal tt, w1)
  /\ isAlive_of w1 = false
  /\ now w1 = 81%nat.
Proof.
  intros w w1.
  pose proof (stopProcess_again_at_once prompt "svc" 5000 w eq_refl) as [H A].
  split; [reflexivity|]. split; [exact H|]. split; [exact A|].
  vm_compute. reflexivity.
Defined.

(** ** From startService to stop *)

Section StartedFacts.
Variable host : Host.
Variable name : string.
Variable timeoutMs : Z.
Variable how : Strategy.

Lemma unharmed_on_response (r : FetchResult) (l : Latch) :
  unharmed l -> unharmed (on_response r l).
Proof.
  intros [U1 U2]. destruct r as [status|]; cbn [on_response]; [|now split].
  destruct (ok status); [|now split].
  unfold resolve, settle, unharmed; cbn. split; [reflexivity|].
  destruct (settled l) as [c|]; [exact U2|].
  intros _. apply U2. discriminate.
Qed.

Lemma unharmed_arrivals (l : Latch) : unharmed l -> unharmed (arrivals host l).
Proof.
  intros U. unfold arrivals.
  set (l0 := set_inflight _ _).
  assert (U0 : unharmed l0).
  { destruct U as [U1 U2]. split; [exact U1|]. intros H.
    unfold l0; cbn [set_inflight set_sys sys]. rewrite killed_advance. now apply U2. }
  clearbody l0. set (rs := List.filter _ _). clearbody rs.
  revert l0 U0; induction rs as [|r rs IH]; intros l0 U0; [exact U0|].
  cbn [fold_left]. apply IH, unharmed_on_response, U0.
Qed.

Lemma unharmed_on_timeout (l : Latch) :
  unharmed l -> timeoutArmed l = true ->
  unharmed (on_timeout host name timeoutMs (clearTimeout l)).
Proof.
  intros [U1 U2] A. unfold on_timeout, reject, settle, unharmed; cbn.
  destruct (settled l) as [[[]|e]|] eqn:E.
  - rewrite U1 in A by reflexivity. discriminate.
  - split; [discriminate|]. intros H. now elim (H e).
  - split; [discriminate|]. intros H. now elim (H _ eq_refl).
Qed.

Lemma unharmed_on_tick (l : Latch) :
  unharmed l -> unharmed (on_tick host name how l).
Proof.
  intros [U1 U2]. destruct how as [sig|u every]; cbn [on_tick].
  - unfold on_signal_tick, check.
    destruct (Js.includes (getOutput (sys l)) sig); cbv zeta;
      match goal with |- context [exitCode ?p] => destruct (exitCode p) end;
      unfold resolve, reject, settle, unharmed; cbn;
      destruct (settled l) as [[[]|e]|]; (split; [try reflexivity; try discriminate; auto|]);
      intros H; try (apply U2; intros e' E'; discriminate);
      try (apply U2; exact H); try (now elim (H _ eq_refl)).
  - unfold on_url_tick.
    destruct (latency (fetch host u (now (sys l))) <? 1000)%nat; now split.
Qed.

Lemma unharmed_turn (k : nat) (l : Latch) :
  unharmed l -> unharmed (turn host name timeoutMs how k l).
Proof.
  intros U. apply unharmed_arrivals in U. unfold turn, timers.
  set (l0 := arrivals host l) in *. clearbody l0.
  set (l1 := if timeoutArmed l0 && (k =? timer_delay timeoutMs)%nat
             then on_timeout host name timeoutMs (clearTimeout l0) else l0).
  assert (U1 : unharmed l1).
  { unfold l1. destruct (timeoutArmed l0) eqn:A; cbn [andb]; [|exact U].
    destruct (k =? timer_delay timeoutMs)%nat; [|exact U].
    now apply unharmed_on_timeout. }
  clearbody l1. destruct (intervalArmed l1 && _); [|exact U1].
  apply unharmed_on_tick, U1.
Qed.

Lemma unharmed_loop (fuel : nat) :
  forall (k : nat) (l : Latch),
    unharmed l -> unharmed (event_loop host name timeoutMs how fuel k l).
Proof.
  induction fuel as [|fuel IH]; intros k l U.
  - now rewrite event_loop_zero.
  - destruct (settled l) as [c|] eqn:E.
    + now rewrite (event_loop_done _ _ _ _ _ _ _ c E).
    + rewrite (event_loop_step _ _ _ _ _ _ _ E). apply IH, unharmed_turn, U.
Qed.

End StartedFacts.

Lemma waitForReady_unharmed (host : Host) (name : string) (r : Ready)
    (timeoutMs : Z) :
  unharmed (waitForReady host name r timeoutMs (spawned host)).
Proof.
  assert (loop : forall how,
             unharmed (event_loop host name timeoutMs how
                         (timer_delay timeoutMs) 0
                         {| sys := spawned host; settled := None;
                            timeoutArmed := true; intervalArmed := true;
                            inflight := [] |})).
  { intros how. apply unharmed_loop. split; [discriminate|reflexivity]. }
  unfold waitForReady.
  destruct (signal r) as [[|c s]|]; destruct (url r) as [[|c' u]|];
    try apply loop; cbn; (split; [discriminate|reflexivity]).
Qed.

(** X7: the service that [startService] resolves with can be stopped at
    any later time: [stop()] resolves, within [stopTimeoutMs] (5000 ms
    when not configured), and the child is not running afterwards. *)
Theorem started_service_stops :
  forall (host : Host) (config : ServiceConfig)
         (service : RunningService Sys) (w : Sys) (n : nat),
    startService host config = Started service w ->
    let w1 := later host n w in
    let r := stop service w1 in
    fst r = Normal tt
    /\ running (snd r) = false
    /\ (now w1 <= now (snd r)
        <= now w1 + timer_delay (default 5000%Z (stopTimeoutMs config)))%nat.
Proof.
  intros host config service w n H w1 r.
  unfold startService, checkGpu in H.
  destruct (requires_gpu config && negb (nvidia_smi host)); [discriminate|].
  fold (spawned host) in H.
  destruct (waitForReady_unharmed host (cfg_name config) (ready config)
              (default 15000%Z (startTimeoutMs config))) as [_ U].
  destruct (settled _) as [[[]|e]|] eqn:E; try discriminate.
  injection H as <- <-.
  assert (K : killed (proc w1) = false).
  { unfold w1. rewrite killed_later. apply U. intros e. discriminate. }
  unfold r. cbn [stop service_of]. unfold stopProcess. rewrite K. cbn [orb].
  destruct (bool_decide (is_Some (exitCode (proc w1)))) eqn:X; cbn [fst snd].
  - split; [reflexivity|]. split; [|lia].
    unfold running. now rewrite (exit_code_exited _ X).
  - split; [reflexivity|]. split; [apply await_exit_not_running|].
    pose proof (await_exit_now host
                  (timer_delay (default 5000%Z (stopTimeoutMs config)))
                  (snd (kill host SIGTERM w1))) as H.
    now rewrite kill_now in H.
Qed.

Lemma started_service_stops_witness :
  let config := config_of (by_signal "Ready on port") None in
  let w := later prompt 50 (spawned prompt) in
  let service := service_of prompt config 0 w in
  let r := stop service (later prompt 30 w) in
  startService prompt config = Started service w
  /\ fst r = Normal tt
  /\ running (snd r) = false
  /\ now (snd r) = 81%nat.
Proof.
  intros config w service r.
  assert (H : startService prompt config = Started service w).
  { rewrite (startService_by_latch prompt config eq_refl). cbv zeta.
    set (l := waitForReady _ _ _ _ _).
    assert (S : settled l = Some (Normal tt)) by (vm_compute; reflexivity).
    assert (E : sys l = w) by (vm_compute; reflexivity).
    rewrite S, E. reflexivity. }
  pose proof (started_service_stops prompt config service w 30 H)
    as (R1 & R2 & _).
  split; [exact H|]. split; [exact R1|]. split; [exact R2|].
  vm_compute. reflexivity.
Defined.

Section GracefulFacts.
Variable host : Host.





End GracefulFacts.


(** ** More on assertPerformance and clusters *)

(** X9: [assertPerformance] returns exactly when the startup time is
    within its limit, if one is given, and the memory reading, if there is
    one, is within its limit, if one is given.  The startup time is
    checked first: when it is over the limit the error is the one about the
    startup, whatever the memory; else a reading over the limit gives
    the name-tagged error about the memory. *)
Theorem assertPerformance_passes_iff :
  forall (W : Type) (s : RunningService W) (req : PerformanceRequirement)
         (w : W),
    (assertPerformance s req w = Normal tt
     <-> (forall limit, maxStartupMs req = Some limit ->
                        (startupMs s <= limit)%Z)
         /\ (forall limit mb, maxMemoryMb req = Some limit ->
                              memoryMb (stats s w) = Some mb ->
                              (mb <= limit)%Z))
    /\ (forall limit, maxStartupMs req = Some limit ->
                      (limit < startupMs s)%Z ->
        exists e, assertPerformance s req w = Throw e
                  /\ Js.includes e "Startup too slow" = true)
    /\ (forall limit mb,
          (forall l, maxStartupMs req = Some l -> (startupMs s <= l)%Z) ->
          maxMemoryMb req = Some limit ->
          memoryMb (stats s w) = Some mb ->
          (limit < mb)%Z ->
        exists e, assertPerformance s req w = Throw e
                  /\ Js.includes e ("[" +:+ name s +:+ "]") = true
                  /\ Js.includes e "Memory too high" = true).
Proof.
  intros W s req w. unfold assertPerformance.
  destruct (maxStartupMs req) as [ls|];
    [destruct (Z.ltb_spec ls (startupMs s)) as [slow|fast]|];
    (split; [|split]).
  - split; [discriminate|]. intros [H _]. specialize (H ls eq_refl). lia.
  - intros limit E _. eexists. split; [reflexivity|].
    found_after ("[" +:+ name s +:+ "] ")
      (": " +:+ Js.show (startupMs s) +:+ "ms > " +:+ Js.show ls +:+ "ms").
  - intros limit mb H. specialize (H ls eq_refl). lia.
  - destruct (maxMemoryMb req) as [lm|]; [destruct (memoryMb (stats s w)) as [mb|]|].
    + destruct (Z.ltb_spec lm mb) as [high|low].
      * split; [discriminate|]. intros [_ H]. specialize (H lm mb eq_refl eq_refl). lia.
      * split; [|reflexivity]. intros _. split.
        -- intros limit E. injection E as <-. exact fast.
        -- intros limit mb' E E'. injection E as <-. injection E' as <-. exact low.
    + split; [|reflexivity]. intros _. split.
      * intros limit E. injection E as <-. exact fast.
      * discriminate.
    + split; [|reflexivity]. intros _. split.
      * intros limit E. injection E as <-. exact fast.
      * discriminate.
  - intros limit E lt. injection E as <-. lia.
  - intros limit mb _ E E' high. rewrite E, E'.
    rewrite (proj2 (Z.ltb_lt limit mb) high).
    eexists. split; [reflexivity|]. split.
    + apply (includes_tag (name s)).
    + found_after ("[" +:+ name s +:+ "] ")
        (": " +:+ Js.show mb +:+ "MB > " +:+ Js.show limit +:+ "MB").
  - destruct (maxMemoryMb req) as [lm|]; [destruct (memoryMb (stats s w)) as [mb|]|].
    + destruct (Z.ltb_spec lm mb) as [high|low].
      * split; [discriminate|]. intros [_ H]. specialize (H lm mb eq_refl eq_refl). lia.
      * split; [|reflexivity]. intros _. split; [discriminate|].
        intros limit mb' E E'. injection E as <-. injection E' as <-. exact low.
    + split; [|reflexivity]. intros _. split; discriminate.
    + split; [|reflexivity]. intros _. split; discriminate.
  - discriminate.
  - intros limit mb _ E E' high. rewrite E, E'.
    rewrite (proj2 (Z.ltb_lt limit mb) high).
    eexists. split; [reflexivity|]. split.
    + apply (includes_tag (name s)).
    + found_after ("[" +:+ name s +:+ "] ")
        (": " +:+ Js.show mb +:+ "MB > " +:+ Js.show limit +:+ "MB").
Qed.

(** X10: when every config starts, [startCluster] resolves with the
    services in the order of their configs, having done nothing but the
    starts, one after the other: no stop is run. *)
Theorem startCluster_all_started :
  forall (W : Type) (start : ServiceConfig -> Promise W (RunningService W))
         (configs : list ServiceConfig) (ss : list (RunningService W))
         (w w' : W),
    started_in_order start configs w ss w' ->
    exists cluster,
      startCluster start configs w = (Normal cluster, w')
      /\ services cluster = ss
      /\ length ss = length configs.
Proof.
  intros W start configs ss w w' H. exists (make_cluster ss).
  unfold startCluster. rewrite (start_each_started start configs [] w ss w' H).
  split; [reflexivity|]. split; [reflexivity|].
  eapply started_length; eassumption.
Qed.

Lemma startCluster_all_started_witness :
  let a := plain_config "a" "node" in
  let b := plain_config "b" "stubborn" in
  started_in_order journal_start [a; b] []
    [journal_service "a" false; journal_service "b" true] []
  /\ exists cluster,
       startCluster journal_start [a; b] [] = (Normal cluster, [])
       /\ services cluster
          = [journal_service "a" false; journal_service "b" true].
Proof.
  intros a b.
  assert (H : started_in_order journal_start [a; b] []
                [journal_service "a" false; journal_service "b" true] [])
    by (repeat econstructor).
  split; [exact H|].
  destruct (startCluster_all_started (list string) journal_start [a; b] _ [] []
              H) as (cluster & E & S' & _).
  exists cluster. split; [exact E|exact S'].
Defined.

(** X11: [get(name)] of a cluster gives the first member of that name, and
    [undefined] exactly when no member has it. *)
Theorem cluster_get_first :
  forall (W : Type) (ss : list (RunningService W)) (n : string),
    match get (make_cluster ss) n with
    | Some s =>
        exists before after,
          ss = (before ++ s :: after)%list
          /\ name s = n
          /\ Forall (fun s' => name s' <> n) before
    | None => Forall (fun s' => name s' <> n) ss
    end.
Proof.
  intros W ss n. cbn [get make_cluster].
  induction ss as [|s ss IH]; cbn [find]; [constructor|].
  destruct (String.eqb_spec (name s) n) as [E|N].
  - exists [], ss. split; [reflexivity|]. split; [exact E|constructor].
  - destruct (find _ ss) as [s'|].
    + destruct IH as (before & after & -> & E & F).
      exists (s :: before), after. split; [reflexivity|]. split; [exact E|].
      now constructor.
    + now constructor.
Qed.

(** ** The mock provider *)

Section ProviderFacts.
Variable options : MockProviderOptions.

Lemma calls_cons (ev : ProviderEvent) (evs : list ProviderEvent) :
  calls (ev :: evs)
  = ((match ev with Call _ => 1 | _ => 0 end) + calls evs)%nat.
Proof. unfold calls. cbn [List.filter]. now destruct ev. Qed.

Lemma answers_cons (o : Outcome) (os : list Outcome) :
  answers (o :: os)
  = ((match o with Answers _ => 1 | _ => 0 end) + answers os)%nat.
Proof. unfold answers. cbn [List.filter]. now destruct o. Qed.

Lemma rejections_cons (o : Outcome) (os : list Outcome) :
  rejections (o :: os)
  = ((match o with Rejects _ => 1 | _ => 0 end) + rejections os)%nat.
Proof. unfold rejections. cbn [List.filter]. now destruct o. Qed.

Lemma exceeds_spec (total : Z) :
  exceeds total (failAfter options) = true
  <-> exists n, failAfter options = Some n /\ (n < total)%Z.
Proof.
  unfold exceeds. destruct (failAfter options) as [n|].
  - rewrite Z.ltb_lt. split; [eauto|]. now intros (m & [= <-] & H).
  - split; [discriminate|]. intros (m & H & _). discriminate.
Qed.

(** One event keeps the counters in step with the calls, and a call is
    rejected exactly when it is past [failAfter]. *)
Lemma step_counted (p : Provider) (ev : ProviderEvent) (c r : nat) :
  counted p c r ->
  r = past_limit (failAfter options) c ->
  let o := fst (provider_step options p ev) in
  let p' := snd (provider_step options p ev) in
  let c' := ((match ev with Call _ => 1 | _ => 0 end) + c)%nat in
  let r' := ((match o with Rejects _ => 1 | _ => 0 end) + r)%nat in
  counted p' c' r'
  /\ r' = past_limit (failAfter options) c'
  /\ length (requestLog (provider_stats p'))
     = ((match o with Answers _ => 1 | _ => 0 end)
        + length (requestLog (provider_stats p)))%nat
  /\ match o with
     | Rejects e => e = default "Mock provider error" (errorMessage options)
     | _ => True
     end.
Proof.
  intros (T & A & AM & MT & L) R. destruct ev as [model|i|ms]; cbn [provider_step].
  - unfold complete_enter.
    destruct (exceeds (totalRequests (provider_stats p) + 1)
                      (failAfter options)) eqn:X; cbn [fst snd].
    + apply exceeds_spec in X as (n & F & lt).
      split; [|split; [|split; [reflexivity|reflexivity]]].
      * unfold counted; cbn. repeat split; try lia.
      * unfold past_limit in *. rewrite F in *. lia.
    + assert (NX : forall n, failAfter options = Some n ->
                             (totalRequests (provider_stats p) + 1 <= n)%Z).
      { intros n F. unfold exceeds in X. rewrite F in X.
        now apply Z.ltb_ge in X. }
      split; [|split; [|split; [reflexivity|exact I]]].
      * unfold counted; cbn. rewrite length_app. cbn [length].
        repeat split; try lia.
      * unfold past_limit in *. destruct (failAfter options) as [n|]; [|exact R].
        specialize (NX n eq_refl). lia.
  - destruct (pending p !! i) as [[model start]|] eqn:P; cbn [fst snd].
    + unfold complete_leave. cbn [fst snd].
      assert (LD : length (delete i (pending p)) = (length (pending p) - 1)%nat)
        by (apply length_delete; eauto).
      assert (pos : (1 <= length (pending p))%nat)
        by (apply lookup_lt_Some in P; lia).
      split; [|split; [exact R|split; [|exact I]]].
      * unfold counted; cbn. rewrite length_app. cbn [length].
        repeat split; try lia.
      * cbn. rewrite length_app. cbn [length]. lia.
    + split; [now repeat split|]. split; [exact R|]. split; [reflexivity|exact I].
  - cbn [fst snd]. split; [now repeat split|].
    split; [exact R|]. split; [reflexivity|exact I].
Qed.

Lemma run_counted (evs : list ProviderEvent) :
  forall (p : Provider) (c r : nat),
    counted p c r ->
    r = past_limit (failAfter options) c ->
    let os := fst (provider_run options p evs) in
    let p' := snd (provider_run options p evs) in
    counted p' (calls evs + c) (rejections os + r)
    /\ (rejections os + r)%nat
       = past_limit (failAfter options) (calls evs + c)
    /\ length (requestLog (provider_stats p'))
       = (answers os + length (requestLog (provider_stats p)))%nat
    /\ Forall (fun o => match o with
                        | Rejects e =>
                            e = default "Mock provider error"
                                        (errorMessage options)
                        | _ => True
                        end) os.
Proof.
  induction evs as [|ev evs IH]; intros p c r C R; cbn [provider_run].
  - cbn [fst snd]. repeat split; try apply C; auto.
  - pose proof (step_counted p ev c r C R) as (C1 & R1 & L1 & E1).
    destruct (provider_step options p ev) as [o p1]. cbn [fst snd] in *.
    specialize (IH p1 _ _ C1 R1) as (C2 & R2 & L2 & E2).
    destruct (provider_run options p1 evs) as [os p2]. cbn [fst snd] in *.
    rewrite calls_cons, rejections_cons, answers_cons.
    replace (match ev with Call _ => 1 | _ => 0 end + calls evs + c)%nat
      with (calls evs + (match ev with Call _ => 1 | _ => 0 end + c))%nat by lia.
    replace (match o with Rejects _ => 1 | _ => 0 end + rejections os + r)%nat
      with (rejections os + (match o with Rejects _ => 1 | _ => 0 end + r))%nat
      by lia.
    split; [exact C2|]. split; [exact R2|]. split; [lia|].
    constructor; assumption.
Qed.

End ProviderFacts.

Lemma fresh_counted (t : Z) : counted (createMockProvider t) 0 0.
Proof. unfold counted; cbn. repeat split; lia. Qed.

(** X12: whatever the order in which calls come in and their timers fire,
    the counters of a provider tell the truth: [totalRequests] is the
    number of calls made, [activeRequests] the number of calls waiting
    (never negative, never above [maxConcurrent], which never exceeds
    [totalRequests]), the log has one entry for each answer given, and
    every call is waiting, answered or rejected. *)
Theorem provider_counters :
  forall (options : MockProviderOptions) (t : Z) (evs : list ProviderEvent),
    let os := fst (provider_run options (createMockProvider t) evs) in
    let p := snd (provider_run options (createMockProvider t) evs) in
    let s := provider_stats p in
    totalRequests s = Z.of_nat (calls evs)
    /\ activeRequests s = Z.of_nat (length (pending p))
    /\ (0 <= activeRequests s <= maxConcurrent s)%Z
    /\ (maxConcurrent s <= totalRequests s)%Z
    /\ length (requestLog s) = answers os
    /\ (answers os + length (pending p) + rejections os = calls evs)%nat.
Proof.
  intros options t evs os p s.
  pose proof (run_counted options evs (createMockProvider t) 0 0
                (fresh_counted t)) as H.
  assert (R0 : 0%nat = past_limit (failAfter options) 0)
    by (unfold past_limit; destruct (failAfter options); lia).
  specialize (H R0) as ((T & A & AM & MT & L) & _ & Lg & _).
  fold os p in T, A, AM, MT, L, Lg. fold s in T, A, AM, MT, L, Lg.
  cbn in Lg. rewrite Nat.add_0_r in *.
  repeat split; try lia.
Qed.

(** X13: with [failAfter: n] exactly the calls after the first [n] are
    rejected (all of them when [n] is negative), none when [failAfter] is
    left out, in whatever order calls and timers come; every rejection
    carries the configured error message; the log never grows beyond
    [n] entries. *)
Theorem provider_fails_after :
  forall (options : MockProviderOptions) (t : Z) (evs : list ProviderEvent),
    let os := fst (provider_run options (createMockProvider t) evs) in
    let p := snd (provider_run options (createMockProvider t) evs) in
    rejections os = past_limit (failAfter options) (calls evs)
    /\ Forall (fun o => match o with
                        | Rejects e =>
                            e = default "Mock provider error"
                                        (errorMessage options)
                        | _ => True
                        end) os
    /\ match failAfter options with
       | Some n => (Z.of_nat (length (requestLog (provider_stats p)))
                    <= Z.max 0 n)%Z
       | None => True
       end.
Proof.
  intros options t evs os p.
  pose proof (run_counted options evs (createMockProvider t) 0 0
                (fresh_counted t)) as H.
  assert (R0 : 0%nat = past_limit (failAfter options) 0)
    by (unfold past_limit; destruct (failAfter options); lia).
  specialize (H R0) as ((T & A & AM & MT & L) & R & Lg & E).
  fold os p in T, A, AM, MT, L, R, Lg, E.
  rewrite !Nat.add_0_r in *.
  split; [exact R|]. split; [exact E|].
  unfold past_limit in R. destruct (failAfter options) as [n|]; [|exact I].
  lia.
Qed.

(** ** Sequential use of the provider *)

Lemma complete_spec (options : MockProviderOptions) (model : string)
    (p : Provider) (c0 : nat) :
  totalRequests (provider_stats p) = Z.of_nat c0 ->
  activeRequests (provider_stats p) = 0%Z ->
  (maxConcurrent (provider_stats p) <= 1)%Z ->
  let r := fst (complete options model p) in
  let p' := snd (complete options model p) in
  totalRequests (provider_stats p') = Z.of_nat (S c0)
  /\ activeRequests (provider_stats p') = 0%Z
  /\ (maxConcurrent (provider_stats p') <= 1)%Z
  /\ pending p' = pending p
  /\ if exceeds (Z.of_nat (c0 + 1)) (failAfter options)
     then r = Throw (default "Mock provider error" (errorMessage options))
     else exists c,
            r = Normal c
            /\ completion_id c = "mock-" +:+ Js.show (Z.of_nat (c0 + 1))
            /\ completion_model c = model
            /\ content c = default "Mock response" (response options).
Proof.
  intros T A M. unfold complete, complete_enter. rewrite T, A.
  replace (Z.of_nat c0 + 1)%Z with (Z.of_nat (c0 + 1)) by lia.
  destruct (exceeds (Z.of_nat (c0 + 1)) (failAfter options)); cbn.
  - repeat split; lia.
  - repeat split; try lia. eexists. repeat split.
Qed.

Lemma complete_in_turn_spec (options : MockProviderOptions)
    (models : list string) :
  forall (p : Provider) (c0 : nat),
    totalRequests (provider_stats p) = Z.of_nat c0 ->
    activeRequests (provider_stats p) = 0%Z ->
    (maxConcurrent (provider_stats p) <= 1)%Z ->
    let rs := fst (complete_in_turn options models p) in
    let p' := snd (complete_in_turn options models p) in
    length rs = length models
    /\ totalRequests (provider_stats p') = Z.of_nat (c0 + length models)
    /\ activeRequests (provider_stats p') = 0%Z
    /\ (maxConcurrent (provider_stats p') <= 1)%Z
    /\ pending p' = pending p
    /\ forall (k : nat) (model : string),
         models !! k = Some model ->
         if exceeds (Z.of_nat (c0 + k + 1)) (failAfter options)
         then rs !! k
              = Some (Throw (default "Mock provider error"
                                     (errorMessage options)))
         else exists c,
                rs !! k = Some (Normal c)
                /\ completion_id c = "mock-" +:+ Js.show (Z.of_nat (c0 + k + 1))
                /\ completion_model c = model
                /\ content c = default "Mock response" (response options).
Proof.
  induction models as [|m models IH]; intros p c0 T A M; cbn [complete_in_turn].
  - cbn [fst snd length]. rewrite Nat.add_0_r.
    repeat split; auto. intros k model H. discriminate.
  - pose proof (complete_spec options m p c0 T A M) as (T1 & A1 & M1 & P1 & R1).
    destruct (complete options m p) as [r p1]. cbn [fst snd] in *.
    destruct (IH p1 (S c0) T1 A1 M1) as (L & T' & A' & M' & P' & each).
    destruct (complete_in_turn options models p1) as [rs p2].
    cbn [fst snd] in *. cbn [length].
    split; [lia|]. split; [rewrite T'; f_equal; lia|].
    split; [exact A'|]. split; [exact M'|]. split; [congruence|].
    intros [|k] model H; cbn in H.
    + injection H as <-. rewrite Nat.add_0_r.
      destruct (exceeds (Z.of_nat (c0 + 1)) (failAfter options));
        [now rewrite R1|].
      destruct R1 as (c & -> & R1). exists c. split; [reflexivity|exact R1].
    + replace (c0 + S k + 1)%nat with (S c0 + k + 1)%nat by lia.
      apply (each k model H).
Qed.

(** X14: calls awaited one after the other never overlap
    ([maxConcurrent] stays at most 1, [activeRequests] is back at 0), the
    [k]-th call is rejected exactly when [k] is past [failAfter], and
    otherwise answered with the id [mock-k], the model it asked for and the
    configured response. *)
Theorem provider_in_turn :
  forall (options : MockProviderOptions) (models : list string) (t : Z),
    let rs := fst (complete_in_turn options models (createMockProvider t)) in
    let s := provider_stats
               (snd (complete_in_turn options models (createMockProvider t))) in
    length rs = length models
    /\ totalRequests s = Z.of_nat (length models)
    /\ activeRequests s = 0%Z
    /\ (maxConcurrent s <= 1)%Z
    /\ forall (k : nat) (model : string),
         models !! k = Some model ->
         if exceeds (Z.of_nat (k + 1)) (failAfter options)
         then rs !! k
              = Some (Throw (default "Mock provider error"
                                     (errorMessage options)))
         else exists c,
                rs !! k = Some (Normal c)
                /\ completion_id c = "mock-" +:+ Js.show (Z.of_nat (k + 1))
                /\ completion_model c = model
                /\ content c = default "Mock response" (response options).
Proof.
  intros options models t rs s.
  destruct (complete_in_turn_spec options models (createMockProvider t) 0)
    as (L & T & A & M & _ & each); [reflexivity|reflexivity|cbn; lia|].
  split; [exact L|]. split; [exact T|]. split; [exact A|]. split; [exact M|].
  intros k model H. exact (each k model H).
Qed.

(** ** Mock auth profiles *)

Lemma chars_append (a b : string) :
  list_ascii_of_string (a +:+ b)
  = (list_ascii_of_string a ++ list_ascii_of_string b)%list.
Proof. induction a as [|x a IH]; cbn; [reflexivity|now rewrite IH]. Qed.

Lemma chars_inj (a b : string) :
  list_ascii_of_string a = list_ascii_of_string b -> a = b.
Proof.
  intros H. rewrite <- (string_of_list_ascii_of_string a),
    <- (string_of_list_ascii_of_string b). now rewrite H.
Qed.

Lemma append_cancel_r (a b suffix : string) :
  a +:+ suffix = b +:+ suffix -> a = b.
Proof.
  intros H. apply chars_inj.
  apply (f_equal list_ascii_of_string) in H. rewrite !chars_append in H.
  now apply app_inv_tail in H.
Qed.

Lemma suffixes_differ (a b : string) :
  a +:+ ":test@example.com" <> b +:+ ":default".
Proof.
  intros H. apply (f_equal list_ascii_of_string) in H.
  rewrite !chars_append in H.
  change (list_ascii_of_string ":test@example.com")
    with (list_ascii_of_string ":test@example.co" ++ ["m"%char])%list in H.
  change (list_ascii_of_string ":default")
    with (list_ascii_of_string ":defaul" ++ ["t"%char])%list in H.
  rewrite !app_assoc in H. apply app_inj_tail in H as [_ H]. discriminate.
Qed.

(** Different providers get different profile ids. *)
Lemma profileId_inj (p q : string) : profileId p = profileId q -> p = q.
Proof.
  unfold profileId.
  destruct (String.eqb_spec p "google-gemini-cli") as [-> |np];
    destruct (String.eqb_spec q "google-gemini-cli") as [-> |nq]; intros H.
  - reflexivity.
  - now apply suffixes_differ in H.
  - symmetry in H. now apply suffixes_differ in H.
  - now apply append_cancel_r in H.
Qed.

Lemma profiles_fold (t : Z) (providers : list string) :
  forall (m : gmap string MockAuthProfile) (k : string) (v : MockAuthProfile),
    fold_left (fun profiles p => <[ profileId p := mock_profile t p ]> profiles)
              providers m !! k = Some v
    <-> (exists p, In p providers /\ k = profileId p /\ v = mock_profile t p)
        \/ ((forall p, In p providers -> k <> profileId p) /\ m !! k = Some v).
Proof.
  induction providers as [|q providers IH]; intros m k v; cbn [fold_left].
  - split; [intros H; right; split; [intros p []|exact H]|].
    intros [(p & [] & _)|[_ H]]; exact H.
  - rewrite IH. split.
    + intros [(p & Hin & -> & ->)|[fresh H]].
      * left. exists p. split; [now right|split; reflexivity].
      * destruct (decide (k = profileId q)) as [-> |ne].
        -- rewrite lookup_insert_eq in H. injection H as <-.
           left. exists q. split; [now left|split; reflexivity].
        -- rewrite lookup_insert_ne in H by congruence.
           right. split; [|exact H]. intros p [<- |Hin]; [exact ne|now apply fresh].
    + intros [(p & [<- |Hin] & -> & ->)|[fresh H]].
      * destruct (in_dec string_dec q providers) as [Hin|none].
        -- left. exists q. split; [exact Hin|split; reflexivity].
        -- right. split; [|now rewrite lookup_insert_eq].
           intros p' Hin E. apply none.
           now rewrite (profileId_inj _ _ E).
      * left. exists p. split; [exact Hin|split; reflexivity].
      * right. split; [intros p Hin; apply fresh; now right|].
        rewrite lookup_insert_ne; [exact H|].
        intros E. apply (fresh q); [now left|now symmetry].
Qed.

Lemma createMockAuthProfiles_lookup_helper (t : Z) (providers : list string)
    (k : string) (v : MockAuthProfile) :
  createMockAuthProfiles t providers !! k = Some v
  <-> exists p, In p providers /\ k = profileId p /\ v = mock_profile t p.
Proof.
  unfold createMockAuthProfiles.
  change (fun profiles p => <[ profileId p := _ ]> profiles)
    with (fun profiles p => <[ profileId p := mock_profile t p ]>
                              (profiles : gmap string MockAuthProfile)).
  rewrite profiles_fold. split; [|now left].
  intros [H|[_ H]]; [exact H|]. now rewrite lookup_empty in H.
Qed.

(** X15: [createMockAuthProfiles] has, under the profile id of each
    provider asked for, that provider's profile (type oauth, the access
    and refresh tokens made of its name, expiry one hour ahead) and has
    no other entry; different providers never share an id. *)
Theorem createMockAuthProfiles_lookup :
  forall (t : Z) (providers : list string) (k : string) (v : MockAuthProfile),
    createMockAuthProfiles t providers !! k = Some v
    <-> exists p, In p providers
                  /\ k = profileId p
                  /\ v = {| type := "oauth"; provider := p;
                            access := "mock-access-" +:+ p;
                            refresh := "mock-refresh-" +:+ p;
                            expires := (t + 3600000)%Z |}.
Proof.
  intros t providers k v.
  apply (createMockAuthProfiles_lookup_helper t providers k v).
Qed.

(** X16: the profiles of [createExpiredMockAuthProfiles] sit under the
    same ids as fresh ones and differ from them in the expiry alone,
    which lies one hour before the time of the call. *)
Theorem createExpiredMockAuthProfiles_expired :
  forall (t0 t : Z) (providers : list string) (k : string)
         (v : MockAuthProfile),
    createExpiredMockAuthProfiles t0 t providers !! k = Some v
    <-> exists p, In p providers
                  /\ k = profileId p
                  /\ v = {| type := "oauth"; provider := p;
                            access := "mock-access-" +:+ p;
                            refresh := "mock-refresh-" +:+ p;
                            expires := (t - 3600000)%Z |}
                  /\ (expires v < t)%Z.
Proof.
  intros t0 t providers k v. unfold createExpiredMockAuthProfiles.
  rewrite lookup_fmap. split.
  - destruct (createMockAuthProfiles t0 providers !! k) as [v0|] eqn:E;
      [|discriminate].
    apply createMockAuthProfiles_lookup_helper in E as (p & Hin & -> & ->).
    cbn. intros [= <-]. exists p. cbn. repeat split; auto. lia.
  - intros (p & Hin & -> & -> & _).
    rewrite (proj2 (createMockAuthProfiles_lookup_helper t0 providers
                      (profileId p) (mock_profile t0 p)));
      [reflexivity|]. exists p. auto.
Qed.
